(** * The session gateway of divus-whatsapp (src/server.js), embedded in Rocq

    The development follows the current revision of [server.js]: the
    three process-wide maps [clients], [qrCodes] and [webhooks], the
    webhook dispatcher [sendToWebhook], the [authenticate] middleware, the
    route table, and the handlers of the session routes.

    The automation engine (wppconnect) is an external collaborator.  Every
    call into it is recorded in a log of [engine_call]s, and what it
    answers is an input of the handler that makes the call: a [promise]
    that fulfils, rejects, or never settles.  Time is a virtual clock in
    milliseconds on which timers fire exactly when they are due.

    A handler runs without interruption up to its answer, except for the
    QR wait of start-session: there the engine callbacks and the
    continuations of the creation promise that fire during each sleep are
    given by a schedule and applied to the shared state between two tests
    of the loop condition.  Console output of the handlers, the token
    directory check and the global [cors] and [express.json] middleware
    have no effect on the state or the answers and are left out. *)

From stdpp Require Import gmap strings list fin_maps.
From Stdlib Require Import ZArith Lia.

Set Warnings "-register-all".
Open Scope string_scope.

(** ** JavaScript values that cross the HTTP boundary *)

(** Values placed in a JSON response body. [VOpaque] stands for data the
    runtime or the engine produces and the server passes on untouched
    (an error stack, the result of a send). *)
Inductive jsval :=
  | VNull
  | VBool (b : bool)
  | VNum (n : Z)
  | VStr (s : string)
  | VObj (fields : list (string * jsval))
  | VOpaque (tag : string).

(** A JSON object literal, fields in the order the source writes them. *)
Definition jsobj := list (string * jsval).

Fixpoint field (k : string) (o : jsobj) : option jsval :=
  match o with
  | [] => None
  | (k', v) :: o' => if String.eqb k k' then Some v else field k o'
  end.

(** Request fields are optional strings; [!x] of the source is
    [negb (truthy x)]: a missing field and the empty string are falsy. *)
Definition truthy (x : option string) : bool :=
  match x with
  | Some (String _ _) => true
  | _ => false
  end.

(** [x || null] of the source, as a JSON value. *)
Definition or_null (x : option string) : jsval :=
  match x with
  | Some (String a s) => VStr (String a s)
  | _ => VNull
  end.

Record response := Response {
  code : Z;          (* HTTP status; [res.json] alone answers 200 *)
  body : jsobj
}.

(** ** Promises of the engine *)

(** What an engine call does once awaited: it fulfils or rejects after
    [ms] milliseconds, or it never settles. *)
Inductive promise (A : Type) :=
  | Resolves (ms : Z) (a : A)
  | Rejects (ms : Z) (msg : string)
  | Never.
Arguments Resolves {A} ms a.
Arguments Rejects {A} ms msg.
Arguments Never {A}.

(** The three ways an [await] inside [try] can end. *)
Inductive awaited (A : Type) :=
  | Value (a : A)
  | Thrown (msg : string)
  | Hangs.
Arguments Value {A} a.
Arguments Thrown {A} msg.
Arguments Hangs {A}.

(** [await p] *)
Definition await {A} (p : promise A) : awaited A :=
  match p with
  | Resolves _ a => Value a
  | Rejects _ msg => Thrown msg
  | Never => Hangs
  end.

(** [await Promise.race([p, new Promise((_, reject) =>
      setTimeout(() => reject(new Error(msg)), limit))])] *)
Definition race_timeout {A} (p : promise A) (limit : Z) (msg : string) : awaited A :=
  match p with
  | Resolves ms a => if (ms <? limit)%Z then Value a else Thrown msg
  | Rejects ms m => if (ms <? limit)%Z then Thrown m else Thrown msg
  | Never => Thrown msg
  end.

Definition settles {A} (p : promise A) : Prop :=
  match p with Never => False | _ => True end.

(** The promise rejects, or it has not fulfilled when a timer of [limit]
    milliseconds fires. *)
Definition throws_or_times_out {A} (p : promise A) (limit : Z) : Prop :=
  match p with
  | Resolves ms _ => (limit <= ms)%Z
  | Rejects _ _ => True
  | Never => True
  end.

(** ** Process-wide state *)

(** A client handle is the engine instance that [wppconnect.create]
    resolved to; instances are numbered in the order they are launched. *)
Abbreviation handle := nat (only parsing).

(** What a creation promise can reject with. *)
Inductive reason :=
  | RError (message : string)
  | RString (s : string)
  | RUndefined.

Inductive pstate := InFlight | Fulfilled | Failed.

(** The variables one start-session call closes over, shared between the
    handler, the engine callbacks and the [then]/[catch] continuations,
    together with the state of [createClientPromise]. *)
Record creation := Creation {
  cr_session : string;
  cr_promise : pstate;
  qrCode : option string;          (* [let qrCode = null] *)
  sessionStatus : string;          (* [let sessionStatus = 'initializing'] *)
  clientCreated : bool;
  createError : option reason
}.

(** [clients], [qrCodes], [webhooks], and every engine instance launched
    so far ([creations !! i] is the closure of instance [i]). *)
Record server := Server {
  clients : gmap string handle;
  qrCodes : gmap string string;
  webhooks : gmap string string;
  creations : list creation
}.

Definition empty_server : server := Server ∅ ∅ ∅ [].

(** Number of engine instances launched for a session id. *)
Definition launched (session : string) (st : server) : nat :=
  length (List.filter (String.eqb session) (cr_session <$> creations st)).

(** ** Webhook dispatcher: [sendToWebhook] *)

(** What one [fetch] does: a response with an HTTP status after [ms]
    milliseconds, a network error, or silence. *)
Inductive fetch_outcome :=
  | Replies (ms : Z) (status : Z)
  | Fails (ms : Z) (msg : string)
  | Silent.

(** One attempt as the [try] block sees it: the abort timer of 10000 ms
    turns a late or missing answer into a thrown abort error. *)
Inductive attempt_result :=
  | HttpStatus (status : Z)
  | FetchThrew (msg : string).

Definition abort_after : Z := 10000.

Definition run_fetch (o : fetch_outcome) : attempt_result :=
  match o with
  | Replies ms status =>
      if (ms <? abort_after)%Z then HttpStatus status
      else FetchThrew "This operation was aborted"
  | Fails ms msg =>
      if (ms <? abort_after)%Z then FetchThrew msg
      else FetchThrew "This operation was aborted"
  | Silent => FetchThrew "This operation was aborted"
  end.

(** [response.ok] *)
Definition response_ok (status : Z) : bool :=
  ((200 <=? status) && (status <=? 299))%Z.

Definition attempt_fails (o : fetch_outcome) : Prop :=
  match run_fetch o with
  | HttpStatus status => response_ok status = false
  | FetchThrew _ => True
  end.

(** Observable effects of the dispatcher, in program order. *)
Inductive effect :=
  | Post (url : string) (session : string) (data : jsobj) (timestamp : Z)
  | Sleep (ms : Z)
  | LogSent (session : string)
  | LogHttpError (session : string) (status : Z) (attempt retries : Z)
  | LogFetchFailed (session : string) (msg : string) (attempt retries : Z)
  | LogPermanentFailure (session : string) (retries : Z).

(** How a call ends for its caller. *)
Inductive completion :=
  | Returned
  | Raised (msg : string).

(** [1000 * Math.pow(2, attempt - 1)] *)
Definition backoff (attempt : Z) : Z := (1000 * 2 ^ (attempt - 1))%Z.

Section Dispatcher.
Variable net : Z -> fetch_outcome.   (* the destination, per attempt *)
Variables (url session : string) (data : jsobj) (now : Z).
Variable retries : Z.

(** The [for (let attempt = 1; attempt <= retries; attempt++)] loop;
    [remaining] counts the iterations still to run. *)
Fixpoint webhook_attempts (remaining : nat) (attempt : Z) : list effect :=
  match remaining with
  | O => [LogPermanentFailure session retries]
  | S remaining' =>
      let pause :=
        if (attempt <? retries)%Z then [Sleep (backoff attempt)] else [] in
      Post url session data now ::
      match run_fetch (net attempt) with
      | HttpStatus status =>
          if response_ok status then [LogSent session]
          else LogHttpError session status attempt retries
                 :: pause ++ webhook_attempts remaining' (attempt + 1)
      | FetchThrew msg =>
          LogFetchFailed session msg attempt retries
            :: pause ++ webhook_attempts remaining' (attempt + 1)
      end
  end.
End Dispatcher.

Definition default_retries : Z := 3.

(** The line an attempt that fails writes to the error log. *)
Definition failure_log (session : string) (o : fetch_outcome) (attempt retries : Z)
    : effect :=
  match run_fetch o with
  | HttpStatus status => LogHttpError session status attempt retries
  | FetchThrew msg => LogFetchFailed session msg attempt retries
  end.

(** [async function sendToWebhook(session, data, retries = 3)] over the
    webhook map; every failure of an attempt is caught inside the loop. *)
Definition sendToWebhook (st : server) (net : Z -> fetch_outcome)
    (session : string) (data : jsobj) (now : Z) (retries : Z)
    : list effect * completion :=
  match webhooks st !! session with
  | Some url =>
      if truthy (Some url)
      then (webhook_attempts net url session data now retries (Z.to_nat retries) 1,
            Returned)
      else ([], Returned)
  | None => ([], Returned)
  end.

Definition is_post (e : effect) : bool :=
  match e with Post _ _ _ _ => true | _ => false end.

(** Number of POST attempts in a trace, and the pauses in order. *)
Definition posts (t : list effect) : nat := length (List.filter is_post t).

Definition pauses (t : list effect) : list Z :=
  omap (fun e => match e with Sleep ms => Some ms | _ => None end) t.

(** ** Engine callbacks and the continuations of [createClientPromise] *)

Definition set_creation (i : nat) (c : creation) (st : server) : server :=
  Server (clients st) (qrCodes st) (webhooks st) (<[i:=c]> (creations st)).

(** [catchQR: (base64Qr) => { qrCode = base64Qr;
      qrCodes.set(session, base64Qr); sessionStatus = 'qrcode'; }] *)
Definition catchQR (i : nat) (base64Qr : string) (st : server) : server :=
  match creations st !! i with
  | None => st
  | Some c =>
      let c' := Creation (cr_session c) (cr_promise c) (Some base64Qr) "qrcode"
                         (clientCreated c) (createError c) in
      Server (clients st) (<[cr_session c := base64Qr]> (qrCodes st))
             (webhooks st) (<[i:=c']> (creations st))
  end.

(** [status === 'authenticated' || status === 'isLogged'] *)
Definition reports_authenticated (status : string) : bool :=
  String.eqb status "authenticated" || String.eqb status "isLogged".

(** [statusFind: (status) => { sessionStatus = status;
      if (...) { sessionStatus = 'connected'; qrCodes.delete(session); } }] *)
Definition statusFind (i : nat) (status : string) (st : server) : server :=
  match creations st !! i with
  | None => st
  | Some c =>
      if reports_authenticated status then
        let c' := Creation (cr_session c) (cr_promise c) (qrCode c) "connected"
                           (clientCreated c) (createError c) in
        Server (clients st) (delete (cr_session c) (qrCodes st))
               (webhooks st) (<[i:=c']> (creations st))
      else
        let c' := Creation (cr_session c) (cr_promise c) (qrCode c) status
                           (clientCreated c) (createError c) in
        set_creation i c' st
  end.

(** [.then(client => { clients.set(session, client); clientCreated = true; ... })];
    a promise settles once, so a settled creation ignores the event. *)
Definition create_resolved (i : nat) (st : server) : server :=
  match creations st !! i with
  | Some c =>
      match cr_promise c with
      | InFlight =>
          let c' := Creation (cr_session c) Fulfilled (qrCode c) (sessionStatus c)
                             true (createError c) in
          Server (<[cr_session c := i]> (clients st)) (qrCodes st)
                 (webhooks st) (<[i:=c']> (creations st))
      | _ => st
      end
  | None => st
  end.

(** [.catch(err => { createError = err; clients.delete(session);
      qrCodes.delete(session); })] *)
Definition create_rejected (i : nat) (err : reason) (st : server) : server :=
  match creations st !! i with
  | Some c =>
      match cr_promise c with
      | InFlight =>
          let c' := Creation (cr_session c) Failed (qrCode c) (sessionStatus c)
                             (clientCreated c) (Some err) in
          Server (delete (cr_session c) (clients st))
                 (delete (cr_session c) (qrCodes st))
                 (webhooks st) (<[i:=c']> (creations st))
      | _ => st
      end
  | None => st
  end.

(** What the engine can do to instance [i] between two suspension points
    of a handler. *)
Inductive engine_event :=
  | CatchQR (i : nat) (base64Qr : string)
  | StatusFind (i : nat) (status : string)
  | CreateResolved (i : nat)
  | CreateRejected (i : nat) (err : reason).

Definition apply_event (ev : engine_event) (st : server) : server :=
  match ev with
  | CatchQR i q => catchQR i q st
  | StatusFind i status => statusFind i status st
  | CreateResolved i => create_resolved i st
  | CreateRejected i err => create_rejected i err st
  end.

Definition deliver (evs : list engine_event) (st : server) : server :=
  foldl (fun st ev => apply_event ev st) st evs.

(** ** Handlers *)

(** Calls into the engine, in program order. *)
Inductive engine_call :=
  | ECreate (session : string)
  | EIsConnected (h : handle)
  | ELogout (h : handle)
  | EClose (h : handle)
  | ESendText (h : handle) (to message : string).

(** What a handler leaves behind: the response it sent ([None] when it is
    still awaiting a promise that never settles), the state, and the calls
    it made into the engine. *)
Record result := Result {
  reply : option response;
  final : server;
  calls : list engine_call
}.

Definition is_create (c : engine_call) : bool :=
  match c with ECreate _ => true | _ => false end.

Definition is_sendText (c : engine_call) : bool :=
  match c with ESendText _ _ _ => true | _ => false end.

(** [clients.delete(session); qrCodes.delete(session);] *)
Definition purge (session : string) (st : server) : server :=
  Server (delete session (clients st)) (delete session (qrCodes st))
         (webhooks st) (creations st).

(** *** [POST /api/:session/start-session] *)

Definition already_connected (session : string) : response :=
  Response 200 [("success", VBool true);
                ("message", VStr "Session already connected");
                ("status", VStr "connected");
                ("session", VStr session);
                ("qrCode", VNull)].

Definition exists_with_qr (session qr : string) : response :=
  Response 200 [("success", VBool true);
                ("message", VStr "Session exists with QR code");
                ("status", VStr "qrcode");
                ("session", VStr session);
                ("qrCode", VStr qr)].

(** The [if (clients.has(session))] block: it answers, or it hands over
    to the creation below (after purging a handle whose check threw), or
    it waits forever on the engine. *)
Inductive guard_result :=
  | GuardAnswers (r : response)
  | GuardFallsThrough (st : server)
  | GuardHangs.

Definition start_guard (st : server) (session : string)
    (conn : promise bool) (closing : promise unit)
    : guard_result * list engine_call :=
  match clients st !! session with
  | None => (GuardFallsThrough st, [])
  | Some h =>
      match await conn with
      | Value true => (GuardAnswers (already_connected session), [EIsConnected h])
      | Value false =>
          match qrCodes st !! session with
          | Some qr => (GuardAnswers (exists_with_qr session qr), [EIsConnected h])
          | None => (GuardFallsThrough st, [EIsConnected h])
          end
      | Thrown _ =>
          match await closing with
          | Hangs => (GuardHangs, [EIsConnected h; EClose h])
          | _ => (GuardFallsThrough (purge session st), [EIsConnected h; EClose h])
          end
      | Hangs => (GuardHangs, [EIsConnected h])
      end
  end.

Definition new_creation (session : string) : creation :=
  Creation session InFlight None "initializing" false None.

(** [wppconnect.create({...})] followed by
    [if (webhook) webhooks.set(session, webhook)]; the new instance gets
    the next free number. *)
Definition launch (st : server) (session : string) (webhook : option string)
    : server * nat :=
  let i := length (creations st) in
  (Server (clients st) (qrCodes st)
          (match webhook with
           | Some (String a u) => <[session := String a u]> (webhooks st)
           | _ => webhooks st
           end)
          ((creations st ++ [new_creation session])%list),
   i).

Definition closure (i : nat) (st : server) : creation :=
  default (new_creation "") (creations st !! i).

Definition reason_truthy (r : option reason) : bool :=
  match r with
  | Some (RError _) => true
  | Some (RString (String _ _)) => true
  | _ => false
  end.

(** [createError?.message || createError?.toString?.() || 'Failed ...'] *)
Definition reason_message (r : option reason) : string :=
  match r with
  | Some (RError (String a m)) => String a m
  | Some (RError "") => "Error"
  | Some (RString (String a s)) => String a s
  | _ => "Failed to create WhatsApp client - unknown error"
  end.

Definition qrTimeout : Z := 30000.
Definition poll_interval : Z := 500.

(** [!qrCode && !createError && (Date.now() - start) < qrTimeout] after
    [polls] sleeps of [poll_interval]. *)
Definition keep_waiting (c : creation) (polls : nat) : bool :=
  negb (truthy (qrCode c)) && negb (reason_truthy (createError c))
  && (poll_interval * Z.of_nat polls <? qrTimeout)%Z.

(** The [while] loop of the QR wait. During the [k]-th sleep the engine
    delivers the events [sched k]. The result is the state at loop exit
    and the number of sleeps taken; [None] only if [fuel] runs out. *)
Fixpoint wait_for_qr (fuel : nat) (sched : nat -> list engine_event)
    (i : nat) (polls : nat) (st : server) : option (server * nat) :=
  if keep_waiting (closure i st) polls then
    match fuel with
    | O => None
    | S fuel' => wait_for_qr fuel' sched i (S polls) (deliver (sched polls) st)
    end
  else Some (st, polls).

Definition wait_fuel : nat := 61.

(** An event that neither produces a QR code for instance [i] nor rejects
    its creation. *)
Definition quiet (i : nat) (ev : engine_event) : Prop :=
  match ev with
  | CatchQR j _ => j <> i
  | CreateRejected j _ => j <> i
  | _ => True
  end.

(** The state after the events of [n] consecutive sleeps, the first of
    them being sleep number [from]. *)
Fixpoint after_sleeps (sched : nat -> list engine_event) (from n : nat)
    (st : server) : server :=
  match n with
  | O => st
  | S n' => after_sleeps sched (S from) n' (deliver (sched from) st)
  end.

Definition timeout_message : string :=
  "QR code generation timeout - the server may be overloaded, please try again".

Definition start_error (session msg : string) : response :=
  Response 500 [("success", VBool false);
                ("error", VStr msg);
                ("details", VOpaque "error.stack");
                ("session", VStr session)].

Definition timed_out (session : string) : response :=
  start_error session timeout_message.

(** The [catch (error)] block of the handler. *)
Definition start_failed (session msg : string) (st : server)
    (cs : list engine_call) : result :=
  Result (Some (start_error session msg)) (purge session st) cs.

Definition started (session : string) (webhook : option string) (c : creation)
    : response :=
  Response 200 [("success", VBool true);
                ("session", VStr session);
                ("qrCode", match qrCode c with Some q => VStr q | None => VNull end);
                ("status", VStr (sessionStatus c));
                ("message", VStr (if truthy (qrCode c)
                                  then "QR Code ready - scan to connect"
                                  else "Session starting"));
                ("webhook", or_null webhook)].

Definition start_session (st : server) (session : string)
    (webhook : option string) (waitQrCode : bool)
    (conn : promise bool) (closing : promise unit)
    (sched : nat -> list engine_event) : result :=
  match start_guard st session conn closing with
  | (GuardAnswers r, cs) => Result (Some r) st cs
  | (GuardHangs, cs) => Result None st cs
  | (GuardFallsThrough st1, cs) =>
      let '(st2, i) := launch st1 session webhook in
      let cs := (cs ++ [ECreate session])%list in
      if waitQrCode then
        match wait_for_qr wait_fuel sched i 0 st2 with
        | None => Result None st2 cs
        | Some (st3, _) =>
            let c := closure i st3 in
            if reason_truthy (createError c) then
              start_failed session (reason_message (createError c)) st3 cs
            else if truthy (qrCode c) then
              Result (Some (started session webhook c)) st3 cs
            else
              start_failed session timeout_message st3 cs
        end
      else Result (Some (started session webhook (closure i st2))) st2 cs
  end.

(** *** [GET /api/:session/qrcode] *)

Definition qr_connected (session : string) : response :=
  Response 200 [("success", VBool true);
                ("session", VStr session);
                ("connected", VBool true);
                ("status", VStr "connected");
                ("qrCode", VNull);
                ("message", VStr "Session already connected")].

Definition qr_not_available : response :=
  Response 404 [("success", VBool false);
                ("error", VStr "QR Code not available");
                ("message", VStr "Session may be connected or not started");
                ("connected", VBool false)].

Definition qr_cached (session qr : string) : response :=
  Response 200 [("success", VBool true);
                ("session", VStr session);
                ("qrCode", VStr qr);
                ("connected", VBool false);
                ("status", VStr "qrcode")].

(** The tail of the handler, after the connectivity block. *)
Definition from_cache (st : server) (session : string) : response :=
  match qrCodes st !! session with
  | Some (String a q) => qr_cached session (String a q)
  | _ => qr_not_available
  end.

Definition qrcode_route (st : server) (session : string) (conn : promise bool)
    : result :=
  match clients st !! session with
  | Some h =>
      match await conn with
      | Value true => Result (Some (qr_connected session)) st [EIsConnected h]
      | Value false => Result (Some (from_cache st session)) st [EIsConnected h]
      | Thrown _ => Result (Some (from_cache st session)) st [EIsConnected h]
      | Hangs => Result None st [EIsConnected h]
      end
  | None => Result (Some (from_cache st session)) st []
  end.

(** *** [GET /api/:session/status] *)

Definition check_limit : Z := 5000.

Definition not_logged (session : string) : response :=
  Response 200 [("success", VBool false);
                ("status", VStr "notLogged");
                ("session", VStr session);
                ("connected", VBool false)].

Definition check_failed (msg : string) : response :=
  Response 200 [("success", VBool false);
                ("status", VStr "error");
                ("error", VStr msg);
                ("connected", VBool false)].

Definition status_route (st : server) (session : string) (conn : promise bool)
    : result :=
  match clients st !! session with
  | None => Result (Some (not_logged session)) st []
  | Some h =>
      match race_timeout conn check_limit "Timeout" with
      | Value isConnected =>
          Result (Some (Response 200
                    [("success", VBool true);
                     ("session", VStr session);
                     ("status", VStr (if isConnected then "connected" else "notLogged"));
                     ("connected", VBool isConnected)])) st [EIsConnected h]
      | Thrown msg => Result (Some (check_failed msg)) st [EIsConnected h]
      | Hangs => Result None st [EIsConnected h]
      end
  end.

(** *** [POST /api/:session/logout] *)

Definition logout_limit : Z := 5000.

Definition session_not_found : response :=
  Response 404 [("success", VBool false); ("error", VStr "Session not found")].

Definition failed_with (msg : string) : response :=
  Response 500 [("success", VBool false); ("error", VStr msg)].

Definition logout_route (st : server) (session : string)
    (logging_out closing : promise unit) : result :=
  match clients st !! session with
  | None => Result (Some session_not_found) st []
  | Some h =>
      match race_timeout logging_out logout_limit "Logout timeout" with
      | Value _ =>
          match await closing with
          | Value _ =>
              Result (Some (Response 200 [("success", VBool true);
                                          ("message", VStr "Logged out successfully");
                                          ("session", VStr session)]))
                     (purge session st) [ELogout h; EClose h]
          | Thrown msg =>
              Result (Some (failed_with msg)) (purge session st) [ELogout h; EClose h]
          | Hangs => Result None st [ELogout h; EClose h]
          end
      | Thrown msg => Result (Some (failed_with msg)) (purge session st) [ELogout h]
      | Hangs => Result None st [ELogout h]
      end
  end.

(** *** [POST /api/:session/sendText] *)

(** [hay.includes(needle)] *)
Fixpoint includes (needle hay : string) : bool :=
  if String.prefix needle hay then true
  else match hay with
       | "" => false
       | String _ hay' => includes needle hay'
       end.

Definition not_connected : response :=
  Response 400 [("success", VBool false); ("error", VStr "Session not connected")].

Definition sendText_route (st : server) (session : string)
    (phone message : option string)
    (conn : promise bool) (sending : promise jsval) : result :=
  match phone, message with
  | Some (String a p), Some (String b m) =>
      let phone := String a p in
      let message := String b m in
      match clients st !! session with
      | None => Result (Some session_not_found) st []
      | Some h =>
          match await conn with
          | Value false => Result (Some not_connected) st [EIsConnected h]
          | Value true =>
              let phoneNumber :=
                if includes "@c.us" phone then phone else phone +:+ "@c.us" in
              let cs := [EIsConnected h; ESendText h phoneNumber message] in
              match await sending with
              | Value r =>
                  Result (Some (Response 200 [("success", VBool true);
                                              ("result", r);
                                              ("session", VStr session);
                                              ("to", VStr phoneNumber);
                                              ("message", VStr "Sent successfully")]))
                         st cs
              | Thrown msg => Result (Some (failed_with msg)) st cs
              | Hangs => Result None st cs
              end
          | Thrown msg => Result (Some (failed_with msg)) st [EIsConnected h]
          | Hangs => Result None st [EIsConnected h]
          end
      end
  | _, _ =>
      Result (Some (Response 400 [("success", VBool false);
                                  ("error", VStr "Missing phone or message")]))
             st []
  end.

(** ** Routing *)

Inductive method := GET | POST | DELETE.

(** A segment of a route path: a literal, or a [:name] placeholder. *)
Inductive segment :=
  | Lit (s : string)
  | Par (name : string).

Inductive middleware := Authenticate.

Inductive handler_name :=
  | RootRoute | HealthRoute
  | StartSession | Qrcode | Status | Logout | SendText
  | SendImage | SendFile | SendVoice | SendVideo
  | GetMessages | AllMessagesInChat | LoadMessagesInChat
  | SetWebhook | RemoveWebhook | ListSessions.

Record route := Route {
  r_method : method;
  r_path : list segment;
  r_middleware : list middleware;
  r_handler : handler_name
}.

(** The [app.get] / [app.post] / [app.delete] registrations of the current
    server, in source order. *)
Definition routes : list route :=
  [ Route GET [] [] RootRoute;
    Route GET [Lit "health"] [] HealthRoute;
    Route POST [Lit "api"; Par "session"; Lit "start-session"] [Authenticate] StartSession;
    Route GET [Lit "api"; Par "session"; Lit "qrcode"] [Authenticate] Qrcode;
    Route GET [Lit "api"; Par "session"; Lit "status"] [Authenticate] Status;
    Route POST [Lit "api"; Par "session"; Lit "logout"] [Authenticate] Logout;
    Route POST [Lit "api"; Par "session"; Lit "sendText"] [Authenticate] SendText;
    Route POST [Lit "api"; Par "session"; Lit "send-image"] [Authenticate] SendImage;
    Route POST [Lit "api"; Par "session"; Lit "send-file"] [Authenticate] SendFile;
    Route POST [Lit "api"; Par "session"; Lit "send-voice"] [Authenticate] SendVoice;
    Route POST [Lit "api"; Par "session"; Lit "send-video"] [Authenticate] SendVideo;
    Route GET [Lit "api"; Par "session"; Lit "get-messages"; Par "phone"]
          [Authenticate] GetMessages;
    Route GET [Lit "api"; Par "session"; Lit "all-messages-in-chat"; Par "phone"]
          [Authenticate] AllMessagesInChat;
    Route GET [Lit "api"; Par "session"; Lit "load-messages-in-chat"; Par "phone"]
          [Authenticate] LoadMessagesInChat;
    Route POST [Lit "api"; Par "session"; Lit "webhook"] [Authenticate] SetWebhook;
    Route DELETE [Lit "api"; Par "session"; Lit "webhook"] [Authenticate] RemoveWebhook;
    Route GET [Lit "api"; Lit "sessions"] [Authenticate] ListSessions ].

(** A route is session-scoped when its path is [/api/:session/...]. *)
Definition session_scoped (r : route) : bool :=
  match r_path r with
  | Lit "api" :: Par "session" :: _ => true
  | _ => false
  end.

Definition uses_authenticate (r : route) : bool :=
  existsb (fun m => match m with Authenticate => true end) (r_middleware r).

(** A request: method, path split at the slashes, and the two headers the
    server reads. *)
Record request := Request {
  rq_method : method;
  rq_path : list string;
  authorization : option string;
  x_api_key : option string
}.

Definition method_eqb (a b : method) : bool :=
  match a, b with
  | GET, GET | POST, POST | DELETE, DELETE => true
  | _, _ => false
  end.

Fixpoint match_path (pat : list segment) (path : list string)
    : option (list (string * string)) :=
  match pat, path with
  | [], [] => Some []
  | Lit s :: pat', x :: path' =>
      if String.eqb s x then match_path pat' path' else None
  | Par name :: pat', x :: path' =>
      match match_path pat' path' with
      | Some params => Some ((name, x) :: params)
      | None => None
      end
  | _, _ => None
  end.

(** The first registered route that matches, with its path parameters. *)
Fixpoint find_route (rs : list route) (rq : request)
    : option (route * list (string * string)) :=
  match rs with
  | [] => None
  | r :: rs' =>
      if method_eqb (r_method r) (rq_method rq) then
        match match_path (r_path r) (rq_path rq) with
        | Some params => Some (r, params)
        | None => find_route rs' rq
        end
      else find_route rs' rq
  end.

Fixpoint drop_chars (n : nat) (s : string) : string :=
  match n, s with
  | S n', String _ s' => drop_chars n' s'
  | _, _ => s
  end.

(** [s.replace(pat, '')]: the first occurrence of [pat] is removed. *)
Fixpoint remove_first (pat s : string) : string :=
  if String.prefix pat s then drop_chars (String.length pat) s
  else match s with
       | "" => ""
       | String c s' => String c (remove_first pat s')
       end.

(** [req.headers['authorization']?.replace('Bearer ', '') ||
     req.headers['x-api-key']] *)
Definition presented_key (rq : request) : option string :=
  match authorization rq with
  | Some a =>
      match remove_first "Bearer " a with
      | "" => x_api_key rq
      | k => Some k
      end
  | None => x_api_key rq
  end.

(** [authenticate]: [true] when [next()] is called, [false] when the
    middleware answers 401 itself. *)
Definition authenticate (API_KEY : string) (rq : request) : bool :=
  match presented_key rq with
  | Some (String a k) => String.eqb (String a k) API_KEY
  | _ => false
  end.

Definition unauthorized : response :=
  Response 401 [("error", VStr "Unauthorized")].

(** What the two open routes read from the process. *)
Record process_info := ProcessInfo {
  now_iso : string;                 (* [new Date().toISOString()] *)
  node_version : string;            (* [process.version] *)
  platform : string;                (* [process.platform] *)
  heap_used_mb : Z;                 (* [Math.round(heapUsed / 1024 / 1024)] *)
  heap_total_mb : Z;
  puppeteer_executable_path : option string;
  SESSION_DIR : string
}.

Definition root_route (info : process_info) (st : server) : response :=
  Response 200 [("status", VStr "online");
                ("sessions", VNum (Z.of_nat (size (clients st))));
                ("message", VStr "WPPConnect Server - Divus Legal");
                ("timestamp", VStr (now_iso info));
                ("node_version", VStr (node_version info));
                ("platform", VStr (platform info))].

Definition health_route (info : process_info) (st : server) : response :=
  Response 200 [("status", VStr "healthy");
                ("uptime", VOpaque "process.uptime()");
                ("sessions", VNum (Z.of_nat (size (clients st))));
                ("memory", VObj [("used", VNum (heap_used_mb info));
                                 ("total", VNum (heap_total_mb info))]);
                ("chromium_path",
                 VStr (match puppeteer_executable_path info with
                       | Some (String a p) => String a p
                       | _ => "/usr/bin/chromium"
                       end));
                ("session_storage", VStr (SESSION_DIR info))].

(** Where a request ends up: answered on the spot, or handed to the
    handler of a session route with its path parameters. *)
Inductive dispatched :=
  | Answered (r : response)
  | Invokes (h : handler_name) (params : list (string * string))
  | Unrouted.

Definition dispatch (API_KEY : string) (info : process_info) (st : server)
    (rq : request) : dispatched :=
  match find_route routes rq with
  | None => Unrouted
  | Some (r, params) =>
      if uses_authenticate r && negb (authenticate API_KEY rq)
      then Answered unauthorized
      else match r_handler r with
           | RootRoute => Answered (root_route info st)
           | HealthRoute => Answered (health_route info st)
           | h => Invokes h params
           end
  end.

(** Instance [i] belongs to [session], has produced no QR code and its
    creation has not been seen to fail: the QR wait goes on. *)
Definition still_waiting (i : nat) (session : string) (st : server) : Prop :=
  exists c, creations st !! i = Some c /\ cr_session c = session
            /\ qrCode c = None /\ createError c = None.

(** The creation promise of instance [i] has not settled. *)
Definition in_flight (i : nat) (st : server) : Prop :=
  exists c, creations st !! i = Some c /\ cr_promise c = InFlight.

(** ** Concrete inputs used by the examples *)

(** An engine that only reports [notLogged] during the fourth sleep. *)
Definition slow_engine (k : nat) : list engine_event :=
  match k with
  | 3 => [StatusFind 0 "notLogged"]
  | _ => []
  end.

Definition refusing_destination (_ : Z) : fetch_outcome := Replies 120 503.

Definition acct1_hooked : server :=
  Server ∅ ∅ {[ "acct1" := "https://hooks.example/in" ]} [].

(** A session whose engine resolved after showing a QR code that is still
    cached. *)
Definition acct1_pairing : server :=
  Server {[ "acct1" := 0 ]} {[ "acct1" := "data:image/png;base64,iVBORw0KGgo" ]} ∅
         [Creation "acct1" Fulfilled (Some "data:image/png;base64,iVBORw0KGgo")
                   "qrcode" true None].

(** The first start-session call for [acct1] on a fresh server, not
    waiting for the QR code: the engine is launched and still starting. *)
Definition acct1_starting : server :=
  final (start_session empty_server "acct1" None false Never Never (fun _ => [])).

(** The same once the engine has shown a QR code. *)
Definition acct1_qr_shown : server :=
  catchQR 0 "data:image/png;base64,iVBORw0KGgo" acct1_starting.

(** The same once the phone has scanned it and the engine says so. *)
Definition acct1_qr_scanned : server :=
  statusFind 0 "qrReadSuccess" acct1_qr_shown.

(** An engine that shows its QR code during the fifth sleep. *)
Definition prompt_engine (k : nat) : list engine_event :=
  match k with
  | 4 => [CatchQR 0 "data:image/png;base64,iVBORw0KGgo"]
  | _ => []
  end.

(** ** Statements of the specification that the code is checked against *)

(** "A QR payload exists only while the status is qrcode": whenever a
    payload is cached for the session of a creation, the transient status
    of that creation is [qrcode]. *)
Definition qr_only_while_qrcode (st : server) : Prop :=
  forall i c, creations st !! i = Some c ->
    is_Some (qrCodes st !! cr_session c) -> sessionStatus c = "qrcode".


(** * The rest of the server *)

(** ** Dispatcher outcomes *)

Definition attempt_succeeds (o : fetch_outcome) : Prop :=
  match run_fetch o with
  | HttpStatus status => response_ok status = true
  | FetchThrew _ => False
  end.

Definition is_permanent_failure (e : effect) : bool :=
  match e with LogPermanentFailure _ _ => true | _ => false end.

(** ** Webhook registration routes *)

Definition with_webhooks (w : gmap string string) (st : server) : server :=
  Server (clients st) (qrCodes st) w (creations st).

(** [POST /api/:session/webhook] *)
Definition set_webhook_route (st : server) (session : string) (url : option string)
    : result :=
  match url with
  | Some (String a u) =>
      Result (Some (Response 200 [("success", VBool true);
                                  ("session", VStr session);
                                  ("webhook", VStr (String a u));
                                  ("message", VStr "Webhook configured successfully")]))
             (with_webhooks (<[session := String a u]> (webhooks st)) st) []
  | _ =>
      Result (Some (Response 400 [("success", VBool false);
                                  ("error", VStr "Missing webhook URL")]))
             st []
  end.

(** [DELETE /api/:session/webhook] *)
Definition remove_webhook_route (st : server) (session : string) : result :=
  Result (Some (Response 200 [("success", VBool true);
                              ("session", VStr session);
                              ("message", VStr "Webhook removed successfully")]))
         (with_webhooks (delete session (webhooks st)) st) [].

(** ** Media routes *)

(** The engine methods behind the media routes, and the calls a media
    handler makes. *)
Inductive engine_method := MSendImage | MSendFile | MSendPtt | MSendVideoAsGif.

Inductive media_call :=
  | McIsConnected (h : handle)
  | McInvoke (m : engine_method) (h : handle) (args : list string).

(** The answer of a media handler ([None] while it awaits a promise that
    never settles) and its engine calls; these handlers leave the state
    alone. *)
Definition media_result := (option response * list media_call)%type.

Definition is_invoke (c : media_call) : bool :=
  match c with McInvoke _ _ _ => true | _ => false end.

(** [x || fallback] on an optional string. *)
Definition or_default (x : option string) (fallback : string) : string :=
  match x with
  | Some (String a s) => String a s
  | _ => fallback
  end.

(** [phone.includes('@c.us') ? phone : `${phone}@c.us`] of sendText. *)
Definition text_address (phone : string) : string :=
  if includes "@c.us" phone then phone else phone +:+ "@c.us".

(** [phone.includes('@') ? phone : `${phone}@c.us`] of the media routes. *)
Definition media_address (phone : string) : string :=
  if includes "@" phone then phone else phone +:+ "@c.us".

(** The part the four media handlers share after validation: registry
    lookup, connectivity check, the engine call inside [try], and the
    [catch] that turns any rejection into a 500. *)
Definition send_when_connected (st : server) (session : string)
    (conn : promise bool) (sending : promise jsval)
    (m : engine_method) (args : list string) (to ok_message : string)
    : media_result :=
  match clients st !! session with
  | None => (Some session_not_found, [])
  | Some h =>
      match await conn with
      | Value true =>
          let cs := [McIsConnected h; McInvoke m h args] in
          match await sending with
          | Value r =>
              (Some (Response 200 [("success", VBool true);
                                   ("result", r);
                                   ("session", VStr session);
                                   ("to", VStr to);
                                   ("message", VStr ok_message)]), cs)
          | Thrown msg => (Some (failed_with msg), cs)
          | Hangs => (None, cs)
          end
      | Value false => (Some not_connected, [McIsConnected h])
      | Thrown msg => (Some (failed_with msg), [McIsConnected h])
      | Hangs => (None, [McIsConnected h])
      end
  end.

Definition missing_fields (msg : string) : media_result :=
  (Some (Response 400 [("success", VBool false); ("error", VStr msg)]), []).

(** [POST /api/:session/send-image] *)
Definition send_image_route (st : server) (session : string)
    (phone base64 filename caption : option string)
    (conn : promise bool) (sending : promise jsval) : media_result :=
  match phone, base64 with
  | Some (String a p), Some (String b d) =>
      let to := media_address (String a p) in
      send_when_connected st session conn sending MSendImage
        [to; String b d; or_default filename "image"; or_default caption ""]
        to "Image sent successfully"
  | _, _ => missing_fields "Missing phone or base64 image"
  end.

(** [POST /api/:session/send-file] *)
Definition send_file_route (st : server) (session : string)
    (phone base64 filename caption : option string)
    (conn : promise bool) (sending : promise jsval) : media_result :=
  match phone, base64, filename with
  | Some (String a p), Some (String b d), Some (String c f) =>
      let to := media_address (String a p) in
      send_when_connected st session conn sending MSendFile
        [to; String b d; String c f; or_default caption ""]
        to "File sent successfully"
  | _, _, _ => missing_fields "Missing phone, base64 or filename"
  end.

(** [POST /api/:session/send-voice] *)
Definition send_voice_route (st : server) (session : string)
    (phone base64 : option string)
    (conn : promise bool) (sending : promise jsval) : media_result :=
  match phone, base64 with
  | Some (String a p), Some (String b d) =>
      let to := media_address (String a p) in
      send_when_connected st session conn sending MSendPtt
        [to; String b d] to "Voice message sent successfully"
  | _, _ => missing_fields "Missing phone or base64 audio"
  end.

(** [POST /api/:session/send-video] *)
Definition send_video_route (st : server) (session : string)
    (phone base64 filename caption : option string)
    (conn : promise bool) (sending : promise jsval) : media_result :=
  match phone, base64 with
  | Some (String a p), Some (String b d) =>
      let to := media_address (String a p) in
      send_when_connected st session conn sending MSendVideoAsGif
        [to; String b d; or_default filename "video"; or_default caption ""]
        to "Video sent successfully"
  | _, _ => missing_fields "Missing phone or base64 video"
  end.

(** The media handler that ends in the given engine method. *)
Definition media_route (m : engine_method) (st : server) (session : string)
    (phone base64 filename caption : option string)
    (conn : promise bool) (sending : promise jsval) : media_result :=
  match m with
  | MSendImage => send_image_route st session phone base64 filename caption conn sending
  | MSendFile => send_file_route st session phone base64 filename caption conn sending
  | MSendPtt => send_voice_route st session phone base64 conn sending
  | MSendVideoAsGif =>
      send_video_route st session phone base64 filename caption conn sending
  end.

(** [let chatId = phone; if (!phone.includes('@'))
      chatId = isGroup === 'true' ? `${phone}@g.us` : `${phone}@c.us`]
    of the three message-history routes. *)
Definition chat_id (phone : string) (isGroup : option string) : string :=
  if includes "@" phone then phone
  else match isGroup with
       | Some "true" => phone +:+ "@g.us"
       | _ => phone +:+ "@c.us"
       end.

(** ** Session listing: [GET /api/sessions] *)

Record session_entry := SessionEntry {
  se_name : string;
  se_status : string;
  se_connected : bool
}.

(** The [for (const [name, client] of clients.entries())] loop. The order
    in which a JavaScript [Map] yields its entries is its insertion order,
    which [gmap] does not record, so the entries are an input; [conn h] is
    what [isConnected()] of handle [h] does. *)
Fixpoint list_sessions (conn : handle -> promise bool)
    (entries : list (string * handle)) : option (list session_entry) :=
  match entries with
  | [] => Some []
  | (name, h) :: rest =>
      match await (conn h) with
      | Value isConnected =>
          cons (SessionEntry name (if isConnected then "connected" else "disconnected")
                             isConnected)
            <$> list_sessions conn rest
      | Thrown _ => cons (SessionEntry name "error" false) <$> list_sessions conn rest
      | Hangs => None
      end
  end.

(** The entry the loop pushes for one session. *)
Definition entry_for (conn : handle -> promise bool) (e : string * handle)
    : session_entry :=
  match await (conn e.2) with
  | Value isConnected =>
      SessionEntry e.1 (if isConnected then "connected" else "disconnected") isConnected
  | _ => SessionEntry e.1 "error" false
  end.

(** The body of the answer: [count] and [sessions]. *)
Definition sessions_route (conn : handle -> promise bool)
    (entries : list (string * handle)) : option (nat * list session_entry) :=
  (fun sessions => (length sessions, sessions)) <$> list_sessions conn entries.

(** [entries] is what [clients.entries()] yields for the registry of [st]. *)
Definition entries_of (st : server) (entries : list (string * handle)) : Prop :=
  entries ≡ₚ map_to_list (clients st).

(** ** Graceful shutdown *)

Record shutdown_result := ShutdownResult {
  shutting_down : bool;             (* [isShuttingDown] afterwards *)
  closed : list engine_call;        (* the [client.close()] calls made *)
  after : server;
  exited : bool                     (* [process.exit(0)] was reached *)
}.

(** [const shutdown = async (signal) => {...}]: every [close()] is called
    before any is awaited; [Promise.allSettled] waits for all of them,
    fulfilled or rejected, and never ends if one never settles. *)
Definition shutdown (isShuttingDown : bool) (entries : list (string * handle))
    (closing : handle -> promise unit) (st : server) : shutdown_result :=
  if isShuttingDown then ShutdownResult true [] st false
  else
    let cs := (fun e : string * handle => EClose e.2) <$> entries in
    if forallb (fun e : string * handle =>
                  match closing e.2 with Never => false | _ => true end) entries
    then ShutdownResult true cs (Server ∅ ∅ (webhooks st) (creations st)) true
    else ShutdownResult true cs st false.

(** ** Route matching *)

(** The route would be chosen for the request if it were registered alone. *)
Definition matches (r : route) (rq : request) : bool :=
  method_eqb (r_method r) (rq_method rq)
  && match match_path (r_path r) (rq_path rq) with Some _ => true | None => false end.

(** ** Reachable states *)

(** The states the server can be in: it starts empty and changes through
    engine events and through the handlers that write to the maps. *)
Inductive reachable : server -> Prop :=
  | reach_start : reachable empty_server
  | reach_event ev st :
      reachable st -> reachable (apply_event ev st)
  | reach_start_session st session webhook waitQrCode conn closing sched :
      reachable st ->
      reachable (final (start_session st session webhook waitQrCode conn closing sched))
  | reach_logout st session logging_out closing :
      reachable st -> reachable (final (logout_route st session logging_out closing))
  | reach_set_webhook st session url :
      reachable st -> reachable (final (set_webhook_route st session url))
  | reach_remove_webhook st session :
      reachable st -> reachable (final (remove_webhook_route st session))
  | reach_shutdown st entries closing :
      reachable st -> reachable (after (shutdown false entries closing st)).

(** Every handle in the registry is the instance of a resolved creation
    for that same session id. *)
Definition registry_sound (st : server) : Prop :=
  forall session h, clients st !! session = Some h ->
    exists c, creations st !! h = Some c
              /\ cr_session c = session
              /\ cr_promise c = Fulfilled
              /\ clientCreated c = true.

(** Every cached QR payload is the latest one some creation of that
    session received. *)
Definition qr_cache_sound (st : server) : Prop :=
  forall session qr, qrCodes st !! session = Some qr ->
    exists i c, creations st !! i = Some c
                /\ cr_session c = session
                /\ qrCode c = Some qr.

Definition registered_for (session : string) (c : creation) : Prop :=
  cr_session c = session /\ cr_promise c = Fulfilled /\ clientCreated c = true.

Definition showed (session qr : string) (c : creation) : Prop :=
  cr_session c = session /\ qrCode c = Some qr.

(** The instance an engine event is about. *)
Definition event_instance (ev : engine_event) : nat :=
  match ev with
  | CatchQR i _ | StatusFind i _ | CreateResolved i | CreateRejected i _ => i
  end.

(** The creation promise of instance [i] has fulfilled. *)
Definition resolved (i : nat) (st : server) : Prop :=
  exists c, creations st !! i = Some c /\ cr_promise c = Fulfilled.

(** ** More concrete inputs *)

Definition two_sessions : server :=
  Server {[ "acct1" := 0; "acct2" := 1 ]} {[ "acct2" := "data:image/png;base64,AAAA" ]}
         {[ "acct1" := "https://hooks.example/in" ]}
         [Creation "acct1" Fulfilled None "connected" true None;
          Creation "acct2" Fulfilled (Some "data:image/png;base64,AAAA") "qrcode" true None].

(** A destination that answers 502 twice and then 200. *)
Definition recovering_destination (attempt : Z) : fetch_outcome :=
  if (attempt <? 3)%Z then Replies 80 502 else Replies 80 200.

(** An engine that resumes a stored login: it reports [isLogged] during
    the second sleep and resolves during the third, without any QR code. *)
Definition resuming_engine (k : nat) : list engine_event :=
  match k with
  | 1 => [StatusFind 0 "isLogged"]
  | 2 => [CreateResolved 0]
  | _ => []
  end.

(** An engine whose browser fails to start during the third sleep. *)
Definition crashing_engine (k : nat) : list engine_event :=
  match k with
  | 2 => [CreateRejected 0 (RError "Failed to launch the browser process")]
  | _ => []
  end.

(** ** Statements and notions used by the revised properties *)



(** The posts and sleeps of a dispatch, in order, without the log lines. *)
Definition is_pace (e : effect) : bool :=
  match e with Post _ _ _ _ | Sleep _ => true | _ => false end.

Definition skeleton (t : list effect) : list effect := List.filter is_pace t.

(** [m] posts, the first of them attempt [first], with the backoff pause
    of each attempt between it and the next one: post, sleep, post, ...,
    post. *)
Definition paced (url session : string) (data : jsobj) (now : Z)
    (first : Z) (m : nat) : list effect :=
  match m with
  | O => []
  | S m' =>
      Post url session data now
        :: flat_map (fun k => [Sleep (backoff k); Post url session data now])
                    (seqZ first (Z.of_nat m'))
  end.

(** *** Route matching as the router does it *)

(** Express compiles a route path to a regular expression with its
    default options: letters compare without regard to case, a [:name]
    placeholder stands for one or more characters other than a slash, and
    one trailing slash is optional.  A path is given by its segments, the
    pieces between the slashes after the leading one; a trailing slash
    shows as a last empty segment. *)
Definition lower_ascii (a : Ascii.ascii) : Ascii.ascii :=
  let n := Ascii.nat_of_ascii a in
  if (65 <=? n)%nat && (n <=? 90)%nat then Ascii.ascii_of_nat (n + 32) else a.

Fixpoint lower (s : string) : string :=
  match s with
  | "" => ""
  | String a s' => String (lower_ascii a) (lower s')
  end.

Definition nonempty (s : string) : bool :=
  match s with "" => false | String _ _ => true end.

Fixpoint express_match_strict (pat : list segment) (path : list string) : bool :=
  match pat, path with
  | [], [] => true
  | Lit s :: pat', x :: path' =>
      String.eqb (lower s) (lower x) && express_match_strict pat' path'
  | Par _ :: pat', x :: path' => nonempty x && express_match_strict pat' path'
  | _, _ => false
  end.

(** The path without its optional trailing slash. *)
Definition strip_slash (path : list string) : list string :=
  match last path with
  | Some "" => removelast path
  | _ => path
  end.

Definition express_match (pat : list segment) (path : list string) : bool :=
  express_match_strict pat path || express_match_strict pat (strip_slash path).

Definition express_matches (r : route) (m : method) (path : list string) : bool :=
  method_eqb (r_method r) m && express_match (r_path r) path.

Definition literals_nonempty (pat : list segment) : bool :=
  forallb (fun sg => match sg with Lit s => nonempty s | Par _ => true end) pat.

(** * Properties *)

(** ** Webhook dispatcher *)

Lemma failing_attempt_step net url session data now retries remaining attempt :
  attempt_fails (net attempt) ->
  webhook_attempts net url session data now retries (S remaining) attempt
  = Post url session data now
      :: failure_log session (net attempt) attempt retries
      :: ((if (attempt <? retries)%Z then [Sleep (backoff attempt)] else [])
          ++ webhook_attempts net url session data now retries remaining (attempt + 1))%list.
Proof.
  intros Hf. unfold attempt_fails, failure_log in *. simpl.
  destruct (run_fetch (net attempt)) as [status|msg]; [|reflexivity].
  rewrite Hf. reflexivity.
Qed.

(** For any retry budget, a destination that always fails is posted to
    once per remaining iteration. *)
Lemma failing_attempts_posts net url session data now retries remaining attempt :
  (forall a, attempt_fails (net a)) ->
  posts (webhook_attempts net url session data now retries remaining attempt)
  = remaining.
Proof.
  intros Hf. revert attempt.
  induction remaining as [|n IH]; intros attempt; [reflexivity|].
  rewrite failing_attempt_step by apply Hf.
  unfold posts in *. cbn [List.filter is_post length].
  unfold failure_log. destruct (run_fetch (net attempt)); cbn [List.filter is_post];
    rewrite List.filter_app, length_app, IH;
    destruct (attempt <? retries)%Z; reflexivity.
Qed.

(** The pause after attempt [k] is [backoff k], and there is none after
    the last attempt. *)
Lemma failing_attempts_pauses net url session data now retries remaining attempt :
  (forall a, attempt_fails (net a)) ->
  (attempt + Z.of_nat remaining = retries + 1)%Z ->
  pauses (webhook_attempts net url session data now retries remaining attempt)
  = backoff <$> seqZ attempt (Z.of_nat remaining - 1).
Proof.
  intros Hf. revert attempt.
  induction remaining as [|n IH]; intros attempt Hlen; [reflexivity|].
  rewrite failing_attempt_step by apply Hf.
  unfold pauses in *. unfold failure_log.
  assert (Hm : forall e t, (match e with Sleep _ => false | _ => true end) = true ->
             omap (fun e => match e with Sleep ms => Some ms | _ => None end) (e :: t)
             = omap (fun e => match e with Sleep ms => Some ms | _ => None end) t).
  { intros [] t H; simpl in *; congruence || reflexivity. }
  rewrite Hm by reflexivity.
  rewrite Hm by (destruct (run_fetch (net attempt)); reflexivity).
  rewrite omap_app, IH by (clear -Hlen; lia).
  destruct n as [|n].
  - replace (attempt <? retries)%Z with false
      by (symmetry; apply Z.ltb_ge; clear -Hlen; lia).
    reflexivity.
  - replace (attempt <? retries)%Z with true
      by (symmetry; apply Z.ltb_lt; clear -Hlen; lia).
    rewrite (seqZ_cons attempt) by (clear; lia).
    rewrite fmap_cons. simpl omap. f_equal. f_equal. f_equal; clear; lia.
Qed.

(** C2: a registered destination that fails on every attempt gets exactly
    three POSTs, with pauses of [backoff 1 = 1000] and [backoff 2 = 2000]
    milliseconds between them and none after the third; the permanent
    failure is then logged and the call returns normally. *)
Theorem sendToWebhook_always_failing st net session url data now :
  webhooks st !! session = Some url ->
  url <> "" ->
  (forall a, attempt_fails (net a)) ->
  let '(trace, how) := sendToWebhook st net session data now default_retries in
  trace = [ Post url session data now;
            failure_log session (net 1%Z) 1 3;
            Sleep 1000;
            Post url session data now;
            failure_log session (net 2%Z) 2 3;
            Sleep 2000;
            Post url session data now;
            failure_log session (net 3%Z) 3 3;
            LogPermanentFailure session 3 ]
  /\ posts trace = 3
  /\ pauses trace = [backoff 1; backoff 2]
  /\ how = Returned.
Proof.
  intros Hurl Hne Hf. unfold sendToWebhook. rewrite Hurl.
  destruct url as [|a u]; [congruence|]. cbn [truthy].
  change (Z.to_nat default_retries) with 3. unfold default_retries.
  rewrite !failing_attempt_step by apply Hf.
  change (1 + 1)%Z with 2%Z. change (2 + 1)%Z with 3%Z.
  change (1 <? 3)%Z with true. change (2 <? 3)%Z with true.
  change (3 <? 3)%Z with false.
  cbn [app webhook_attempts].
  change (backoff 1) with 1000%Z. change (backoff 2) with 2000%Z.
  unfold failure_log.
  destruct (run_fetch (net 1%Z)), (run_fetch (net 2%Z)), (run_fetch (net 3%Z));
    repeat split; reflexivity.
Qed.

Lemma sendToWebhook_always_failing_witness :
  sendToWebhook acct1_hooked refusing_destination "acct1" [] 0 default_retries
  = ([ Post "https://hooks.example/in" "acct1" [] 0;
       LogHttpError "acct1" 503 1 3; Sleep 1000;
       Post "https://hooks.example/in" "acct1" [] 0;
       LogHttpError "acct1" 503 2 3; Sleep 2000;
       Post "https://hooks.example/in" "acct1" [] 0;
       LogHttpError "acct1" 503 3 3;
       LogPermanentFailure "acct1" 3 ], Returned).
Proof.
  pose proof (sendToWebhook_always_failing acct1_hooked refusing_destination
                "acct1" "https://hooks.example/in" [] 0) as H.
  destruct (sendToWebhook acct1_hooked refusing_destination "acct1" [] 0
              default_retries) as [trace how].
  destruct H as (-> & _ & _ & ->);
    [reflexivity | discriminate | intros a; reflexivity | reflexivity].
Defined.

(** ** Status, logout, send and QR routes *)

Lemma purge_clients session st : clients (purge session st) !! session = None.
Proof. apply lookup_delete_eq. Qed.

Lemma purge_qrCodes session st : qrCodes (purge session st) !! session = None.
Proof. apply lookup_delete_eq. Qed.

Lemma race_fails_thrown {A} (p : promise A) limit msg :
  throws_or_times_out p limit -> exists m, race_timeout p limit msg = Thrown m.
Proof.
  destruct p as [ms a|ms m|]; simpl; intros H; eauto.
  - replace (ms <? limit)%Z with false by (symmetry; apply Z.ltb_ge; exact H). eauto.
  - destruct (ms <? limit)%Z; eauto.
Qed.

(** C7: a status query for an id that is not in the registry answers
    success false, status notLogged, connected false; for a registered id
    whose connectivity check rejects or has not answered after 5000 ms it
    answers status error with connected false, and the registry keeps the
    entry. *)
Theorem status_unknown_or_failing st session conn :
  (clients st !! session = None ->
   status_route st session conn = Result (Some (not_logged session)) st []
   /\ field "success" (body (not_logged session)) = Some (VBool false)
   /\ field "status" (body (not_logged session)) = Some (VStr "notLogged")
   /\ field "connected" (body (not_logged session)) = Some (VBool false))
  /\ (forall h, clients st !! session = Some h ->
      throws_or_times_out conn check_limit ->
      exists msg,
        reply (status_route st session conn) = Some (check_failed msg)
        /\ field "status" (body (check_failed msg)) = Some (VStr "error")
        /\ field "connected" (body (check_failed msg)) = Some (VBool false)
        /\ final (status_route st session conn) = st
        /\ clients (final (status_route st session conn)) !! session = Some h).
Proof.
  split.
  - intros Hmiss. unfold status_route. rewrite Hmiss. repeat split.
  - intros h Hhit Hfail. unfold status_route. rewrite Hhit.
    destruct (race_fails_thrown conn check_limit "Timeout" Hfail) as [m ->].
    exists m. simpl. repeat split. exact Hhit.
Qed.

Lemma status_unknown_or_failing_witness :
  status_route empty_server "unknown-id" Never
  = Result (Some (not_logged "unknown-id")) empty_server []
  /\ reply (status_route acct1_pairing "acct1" (Resolves 7000 true))
     = Some (check_failed "Timeout")
  /\ clients (final (status_route acct1_pairing "acct1" (Resolves 7000 true)))
       !! "acct1" = Some 0.
Proof.
  split.
  - apply (status_unknown_or_failing empty_server "unknown-id" Never). reflexivity.
  - destruct (proj2 (status_unknown_or_failing acct1_pairing "acct1"
                       (Resolves 7000 true)) 0) as (msg & Hr & _ & _ & _ & Hc).
    + reflexivity.
    + simpl. unfold check_limit. lia.
    + split; [reflexivity | exact Hc].
Defined.




(** C6: with a non-empty phone and message, sendText on an id that is not
    in the registry answers 404 without any engine call, and on a
    registered id whose connectivity predicate answers false it answers
    400 and never calls the engine's sendText. *)
Theorem sendText_rejects_unknown_and_disconnected st session phone message conn sending :
  truthy phone = true ->
  truthy message = true ->
  (clients st !! session = None ->
   sendText_route st session phone message conn sending
   = Result (Some session_not_found) st []
   /\ code session_not_found = 404%Z)
  /\ (forall h ms, clients st !! session = Some h ->
      conn = Resolves ms false ->
      let r := sendText_route st session phone message conn sending in
      reply r = Some not_connected
      /\ code not_connected = 400%Z
      /\ List.filter is_sendText (calls r) = []
      /\ final r = st).
Proof.
  intros Hp Hm.
  destruct phone as [[|a p]|]; try discriminate.
  destruct message as [[|b m]|]; try discriminate.
  split.
  - intros Hmiss. unfold sendText_route. rewrite Hmiss. split; reflexivity.
  - intros h ms Hhit -> r. subst r. unfold sendText_route. rewrite Hhit.
    simpl. repeat split.
Qed.

Lemma sendText_rejects_unknown_and_disconnected_witness :
  sendText_route empty_server "acct1" (Some "5511999990000") (Some "hello")
                 Never Never
  = Result (Some session_not_found) empty_server []
  /\ reply (sendText_route acct1_pairing "acct1" (Some "5511999990000") (Some "hello")
                           (Resolves 3 false) (Resolves 9 (VOpaque "sent")))
     = Some not_connected.
Proof.
  destruct (sendText_rejects_unknown_and_disconnected empty_server "acct1"
              (Some "5511999990000") (Some "hello") Never Never) as [Ha _];
    [reflexivity | reflexivity |].
  destruct (sendText_rejects_unknown_and_disconnected acct1_pairing "acct1"
              (Some "5511999990000") (Some "hello") (Resolves 3 false)
              (Resolves 9 (VOpaque "sent"))) as [_ Hb];
    [reflexivity | reflexivity |].
  split.
  - apply Ha. reflexivity.
  - apply (Hb 0 3%Z); reflexivity.
Defined.

(** C9: when the connectivity check of a qrcode fetch rejects, the handler
    still answers from the QR cache: the cached payload (a non-empty
    string) with status qrcode, or 404 when nothing is cached; the answer
    is never a 500 and the state is untouched. *)
Theorem qrcode_survives_failed_check st session h ms msg :
  clients st !! session = Some h ->
  let r := qrcode_route st session (Rejects ms msg) in
  reply r = Some (from_cache st session)
  /\ final r = st
  /\ (forall qr, qrCodes st !! session = Some qr -> qr <> "" ->
      from_cache st session = qr_cached session qr
      /\ field "status" (body (qr_cached session qr)) = Some (VStr "qrcode")
      /\ field "qrCode" (body (qr_cached session qr)) = Some (VStr qr))
  /\ (qrCodes st !! session = None ->
      from_cache st session = qr_not_available /\ code qr_not_available = 404%Z)
  /\ code (from_cache st session) <> 500%Z.
Proof.
  intros Hhit r. subst r. unfold qrcode_route. rewrite Hhit. simpl.
  split; [reflexivity|]. split; [reflexivity|]. split; [|split].
  - intros qr Hq Hne. unfold from_cache. rewrite Hq.
    destruct qr; [congruence | repeat split].
  - intros Hq. unfold from_cache. rewrite Hq. split; reflexivity.
  - unfold from_cache. destruct (qrCodes st !! session) as [[|a q]|]; discriminate.
Qed.

Lemma qrcode_survives_failed_check_witness :
  reply (qrcode_route acct1_pairing "acct1" (Rejects 40 "Protocol error"))
  = Some (qr_cached "acct1" "data:image/png;base64,iVBORw0KGgo").
Proof.
  destruct (qrcode_survives_failed_check acct1_pairing "acct1" 0 40 "Protocol error")
    as (Hr & _ & Hq & _); [reflexivity|].
  rewrite Hr.
  destruct (Hq "data:image/png;base64,iVBORw0KGgo") as [-> _];
    [reflexivity | discriminate | reflexivity].
Defined.

(** ** Routing *)

Lemma routes_authenticate_iff_not_liveness :
  Forall (fun r => uses_authenticate r
                   = match r_handler r with
                     | RootRoute | HealthRoute => false
                     | _ => true
                     end) routes.
Proof. unfold routes. repeat constructor. Qed.

Lemma session_routes_authenticated :
  Forall (fun r => session_scoped r = true -> uses_authenticate r = true) routes.
Proof.
  unfold routes.
  repeat (constructor; [intros H; first [reflexivity | cbv in H; discriminate H]|]).
  constructor.
Qed.

(** C10: [GET /] and [GET /health] are answered 200 with a JSON body
    carrying a status, whatever the authorization headers and the
    configured key are; among the registered routes these two are the only
    ones without the authenticate middleware, every session-scoped route
    has it, and a session-scoped request that fails it is answered 401
    before any handler runs. *)
Theorem liveness_routes_are_open API_KEY info st auth key :
  dispatch API_KEY info st (Request GET [] auth key)
  = Answered (root_route info st)
  /\ code (root_route info st) = 200%Z
  /\ field "status" (body (root_route info st)) = Some (VStr "online")
  /\ dispatch API_KEY info st (Request GET ["health"] auth key)
     = Answered (health_route info st)
  /\ code (health_route info st) = 200%Z
  /\ field "status" (body (health_route info st)) = Some (VStr "healthy")
  /\ (forall r, r ∈ routes ->
      uses_authenticate r = false <->
      r_handler r = RootRoute \/ r_handler r = HealthRoute)
  /\ (forall r, r ∈ routes -> session_scoped r = true -> uses_authenticate r = true)
  /\ (forall rq r params,
      find_route routes rq = Some (r, params) ->
      session_scoped r = true ->
      authenticate API_KEY rq = false ->
      dispatch API_KEY info st rq = Answered unauthorized).
Proof.
  repeat split; try reflexivity.
  - intros Hno.
    pose proof (proj1 (Forall_forall _ _) routes_authenticate_iff_not_liveness r H) as Hr.
    simpl in Hr. rewrite Hno in Hr.
    destruct (r_handler r); try discriminate; auto.
  - intros Hh.
    pose proof (proj1 (Forall_forall _ _) routes_authenticate_iff_not_liveness r H) as Hr.
    simpl in Hr. rewrite Hr. destruct Hh as [-> | ->]; reflexivity.
  - intros r Hr. apply (proj1 (Forall_forall _ _) session_routes_authenticated r Hr).
  - intros rq r params Hfind Hscoped Hauth.
    assert (Hin : r ∈ routes).
    { clear -Hfind. induction routes as [|r0 rs IH]; [discriminate|].
      simpl in Hfind.
      destruct (method_eqb (r_method r0) (rq_method rq));
        [destruct (match_path (r_path r0) (rq_path rq))|].
      - injection Hfind as -> _. left.
      - right. auto.
      - right. auto. }
    unfold dispatch. rewrite Hfind.
    rewrite (proj1 (Forall_forall _ _) session_routes_authenticated r Hin Hscoped).
    rewrite Hauth. reflexivity.
Qed.

(** A request for a session route that presents no key stops at the
    middleware. *)
Example status_without_key_is_refused info st :
  dispatch "s3cret" info st (Request GET ["api"; "acct1"; "status"] None None)
  = Answered unauthorized.
Proof. reflexivity. Qed.

Example status_with_bearer_key_is_routed info st :
  dispatch "s3cret" info st
           (Request GET ["api"; "acct1"; "status"] (Some "Bearer s3cret") None)
  = Invokes Status [("session", "acct1")].
Proof. reflexivity. Qed.

(** ** Start-session on a live handle *)

(** C5: when the registry holds a handle for the id and its connectivity
    predicate answers true, start-session answers status connected with a
    null QR and launches nothing; when it answers false and a QR payload
    is cached, start-session answers that payload with status qrcode and
    launches nothing. *)
Theorem start_session_reuses_live_handle st session h webhook waitQrCode ms closing sched :
  clients st !! session = Some h ->
  (let r := start_session st session webhook waitQrCode (Resolves ms true) closing sched in
   reply r = Some (already_connected session)
   /\ field "status" (body (already_connected session)) = Some (VStr "connected")
   /\ field "qrCode" (body (already_connected session)) = Some VNull
   /\ List.filter is_create (calls r) = []
   /\ final r = st)
  /\ (forall qr, qrCodes st !! session = Some qr ->
      let r := start_session st session webhook waitQrCode (Resolves ms false) closing sched in
      reply r = Some (exists_with_qr session qr)
      /\ field "status" (body (exists_with_qr session qr)) = Some (VStr "qrcode")
      /\ field "qrCode" (body (exists_with_qr session qr)) = Some (VStr qr)
      /\ List.filter is_create (calls r) = []
      /\ final r = st).
Proof.
  intros Hhit. split.
  - unfold start_session, start_guard. rewrite Hhit. simpl. repeat split.
  - intros qr Hqr. unfold start_session, start_guard. rewrite Hhit. simpl.
    rewrite Hqr. repeat split.
Qed.

Lemma start_session_reuses_live_handle_witness :
  reply (start_session acct1_pairing "acct1" None true (Resolves 5 true) Never (fun _ => []))
  = Some (already_connected "acct1")
  /\ reply (start_session acct1_pairing "acct1" None true (Resolves 5 false) Never (fun _ => []))
     = Some (exists_with_qr "acct1" "data:image/png;base64,iVBORw0KGgo").
Proof.
  destruct (start_session_reuses_live_handle acct1_pairing "acct1" 0 None true 5
              Never (fun _ => [])) as [Ha Hb]; [reflexivity|].
  split.
  - apply Ha.
  - apply (Hb "data:image/png;base64,iVBORw0KGgo"). reflexivity.
Defined.

(** ** The QR cache and the status callback *)

Lemma reports_authenticated_iff status :
  reports_authenticated status = true
  <-> status = "authenticated" \/ status = "isLogged".
Proof.
  unfold reports_authenticated. rewrite orb_true_iff, !String.eqb_eq. tauto.
Qed.

Lemma closure_lookup i st c : creations st !! i = Some c -> closure i st = c.
Proof. intros H. unfold closure. rewrite H. reflexivity. Qed.

(** After [catchQR] and a status other than the two authenticated ones
    the payload is still cached while the transient status is no longer
    [qrcode]. *)
Lemma qr_outlives_qrcode_status : ~ qr_only_while_qrcode acct1_qr_scanned.
Proof.
  intros H.
  specialize (H 0 (Creation "acct1" InFlight (Some "data:image/png;base64,iVBORw0KGgo")
                            "qrReadSuccess" false None) eq_refl).
  assert (Hq : is_Some (qrCodes acct1_qr_scanned !! "acct1")) by (eexists; reflexivity).
  specialize (H Hq). discriminate H.
Qed.

(** C4, as the code has it: when the status callback of a creation reports
    authenticated or isLogged, its transient status becomes connected and
    the cached QR of its session is deleted, so a qrcode fetch on that
    state carries no QR payload (it answers connected with a null QR, or
    404); any other status is stored as reported and leaves the QR cache
    as it was. *)
Theorem authenticated_status_clears_qr st i c status conn :
  creations st !! i = Some c ->
  (status = "authenticated" \/ status = "isLogged" ->
   let st' := statusFind i status st in
   sessionStatus (closure i st') = "connected"
   /\ qrCodes st' !! cr_session c = None
   /\ forall r, reply (qrcode_route st' (cr_session c) conn) = Some r ->
        r = qr_connected (cr_session c) \/ r = qr_not_available)
  /\ (reports_authenticated status = false ->
      sessionStatus (closure i (statusFind i status st)) = status
      /\ qrCodes (statusFind i status st) = qrCodes st).
Proof.
  intros Hc. pose proof (lookup_lt_Some _ _ _ Hc) as Hlt. split.
  - intros Hauth st'. apply reports_authenticated_iff in Hauth.
    assert (Hq : qrCodes st' !! cr_session c = None).
    { subst st'. unfold statusFind. rewrite Hc, Hauth. apply lookup_delete_eq. }
    split; [|split; [exact Hq|]].
    + subst st'. unfold statusFind. rewrite Hc, Hauth.
      unfold closure. cbn [creations]. rewrite list_lookup_insert_eq by exact Hlt.
      reflexivity.
    + intros r. unfold qrcode_route, from_cache. rewrite Hq.
      destruct (clients st' !! cr_session c); [destruct (await conn) as [[|]| |]|];
        simpl; intros Hr; inversion Hr; auto.
  - intros Hno. unfold statusFind. rewrite Hc, Hno. split; [|reflexivity].
    unfold closure, set_creation. cbn [creations].
    rewrite list_lookup_insert_eq by exact Hlt. reflexivity.
Qed.

Lemma authenticated_status_clears_qr_witness :
  qrCodes (statusFind 0 "isLogged" acct1_qr_shown) !! "acct1" = None
  /\ sessionStatus (closure 0 (statusFind 0 "isLogged" acct1_qr_shown)) = "connected".
Proof.
  destruct (authenticated_status_clears_qr acct1_qr_shown 0
              (Creation "acct1" InFlight (Some "data:image/png;base64,iVBORw0KGgo")
                        "qrcode" false None) "isLogged" Never) as [Ha _];
    [reflexivity|].
  destruct Ha as (Hs & Hq & _); [right; reflexivity|].
  split; [exact Hq | exact Hs].
Defined.

(** ** Engine launches *)

Lemma insert_same_session (l : list creation) i c c' :
  l !! i = Some c -> cr_session c' = cr_session c ->
  cr_session <$> <[i:=c']> l = cr_session <$> l.
Proof.
  intros Hl Hs. rewrite list_fmap_insert, Hs.
  apply list_insert_id. rewrite list_lookup_fmap, Hl. reflexivity.
Qed.

(** Callbacks and continuations never change which session an instance
    belongs to, nor how many instances there are. *)
Lemma sessions_apply_event ev st :
  cr_session <$> creations (apply_event ev st) = cr_session <$> creations st.
Proof.
  destruct ev as [i q|i status|i|i err]; simpl;
    [unfold catchQR | unfold statusFind | unfold create_resolved | unfold create_rejected];
    destruct (creations st !! i) as [c|] eqn:Hc; try reflexivity.
  - apply (insert_same_session _ _ c); auto.
  - destruct (reports_authenticated status); apply (insert_same_session _ _ c); auto.
  - destruct (cr_promise c); try reflexivity. apply (insert_same_session _ _ c); auto.
  - destruct (cr_promise c); try reflexivity. apply (insert_same_session _ _ c); auto.
Qed.

Lemma sessions_deliver evs st :
  cr_session <$> creations (deliver evs st) = cr_session <$> creations st.
Proof.
  revert st. induction evs as [|ev evs IH]; intros st; [reflexivity|].
  simpl. rewrite IH. apply sessions_apply_event.
Qed.

Lemma sessions_wait fuel sched i polls st st' n :
  wait_for_qr fuel sched i polls st = Some (st', n) ->
  cr_session <$> creations st' = cr_session <$> creations st.
Proof.
  revert polls st. induction fuel as [|fuel IH]; intros polls st; simpl;
    destruct (keep_waiting (closure i st) polls); try discriminate.
  - intros [= -> _]. reflexivity.
  - intros H. rewrite (IH _ _ H). apply sessions_deliver.
  - intros [= -> _]. reflexivity.
Qed.

Lemma launched_same st st' session :
  cr_session <$> creations st' = cr_session <$> creations st ->
  launched session st' = launched session st.
Proof. unfold launched. intros ->. reflexivity. Qed.

Lemma launched_launch st session webhook :
  launched session (launch st session webhook).1 = S (launched session st).
Proof.
  unfold launched, launch. cbn [fst creations].
  rewrite fmap_app, List.filter_app, length_app. simpl.
  rewrite String.eqb_refl. simpl. lia.
Qed.

(** The QR wait always comes to an end: the clock test fails after sixty
    sleeps at the latest. *)
Lemma wait_for_qr_total fuel sched i polls st :
  60 - polls < fuel -> is_Some (wait_for_qr fuel sched i polls st).
Proof.
  revert polls st. induction fuel as [|fuel IH]; intros polls st Hf; [lia|].
  simpl. destruct (keep_waiting (closure i st) polls) eqn:Hk; [|eauto].
  apply IH. unfold keep_waiting, poll_interval, qrTimeout in Hk.
  apply andb_true_iff in Hk as [_ Hk]. apply Z.ltb_lt in Hk. lia.
Qed.


(** A start-session call that gets past the guard launches exactly one
    engine instance for its session, however it ends. *)
Lemma start_session_launches_once st st1 cs session webhook waitQrCode conn closing sched :
  start_guard st session conn closing = (GuardFallsThrough st1, cs) ->
  creations st1 = creations st ->
  let r := start_session st session webhook waitQrCode conn closing sched in
  calls r = (cs ++ [ECreate session])%list
  /\ launched session (final r) = S (launched session st).
Proof.
  intros Hg Hcr r. subst r. unfold start_session. rewrite Hg.
  destruct (launch st1 session webhook) as [st2 i] eqn:Hl.
  assert (H2 : launched session st2 = S (launched session st)).
  { replace st2 with (launch st1 session webhook).1 by (rewrite Hl; reflexivity).
    rewrite launched_launch. unfold launched. rewrite Hcr. reflexivity. }
  destruct waitQrCode; [|split; [reflexivity | exact H2]].
  destruct (wait_for_qr wait_fuel sched i 0 st2) as [[st3 n]|] eqn:Hw;
    [|split; [reflexivity | exact H2]].
  pose proof (sessions_wait _ _ _ _ _ _ _ Hw) as Hs.
  destruct (reason_truthy (createError (closure i st3)));
    [|destruct (truthy (qrCode (closure i st3)))];
    (split; [reflexivity|]); rewrite <- H2; apply launched_same; exact Hs.
Qed.




(** ** The QR wait *)

Ltac at_instance j i Hlt :=
  destruct (decide (j = i)) as [->|Hne];
  [rewrite list_lookup_insert_eq by exact Hlt
  |rewrite list_lookup_insert_ne by exact Hne].

Lemma quiet_event_waiting i session ev st :
  quiet i ev -> still_waiting i session st -> still_waiting i session (apply_event ev st).
Proof.
  intros Hq (c & Hc & Hs & Hqr & He). unfold still_waiting.
  destruct ev as [j q|j status|j|j err]; simpl in *;
    [unfold catchQR | unfold statusFind | unfold create_resolved | unfold create_rejected];
    (destruct (creations st !! j) as [cj|] eqn:Hj; [|eauto 6]);
    pose proof (lookup_lt_Some _ _ _ Hj) as Hlt.
  - cbn [creations]. rewrite list_lookup_insert_ne by exact Hq. eauto 6.
  - destruct (reports_authenticated status); cbn [creations set_creation];
      (at_instance j i Hlt; [|eauto 6]);
      rewrite Hj in Hc; injection Hc as ->; eexists; repeat split; eauto.
  - destruct (cr_promise cj); [|eauto 6|eauto 6]. cbn [creations].
    at_instance j i Hlt; [|eauto 6].
    rewrite Hj in Hc; injection Hc as ->; eexists; repeat split; eauto.
  - destruct (cr_promise cj); [|eauto 6|eauto 6]. cbn [creations].
    rewrite list_lookup_insert_ne by exact Hq. eauto 6.
Qed.

Lemma calm_event_in_flight i ev st :
  quiet i ev -> ev <> CreateResolved i -> in_flight i st -> in_flight i (apply_event ev st).
Proof.
  intros Hq Hr (c & Hc & Hp). unfold in_flight.
  destruct ev as [j q|j status|j|j err]; simpl in *;
    [unfold catchQR | unfold statusFind | unfold create_resolved | unfold create_rejected];
    (destruct (creations st !! j) as [cj|] eqn:Hj; [|eauto]);
    pose proof (lookup_lt_Some _ _ _ Hj) as Hlt.
  - cbn [creations]. rewrite list_lookup_insert_ne by exact Hq. eauto.
  - destruct (reports_authenticated status); cbn [creations set_creation];
      (at_instance j i Hlt; [|eauto]);
      rewrite Hj in Hc; injection Hc as ->; eexists; split; eauto.
  - destruct (cr_promise cj); [|eauto|eauto]. cbn [creations].
    rewrite list_lookup_insert_ne by congruence. eauto.
  - destruct (cr_promise cj); [|eauto|eauto]. cbn [creations].
    rewrite list_lookup_insert_ne by exact Hq. eauto.
Qed.

Section QuietSchedule.
Variables (sched : nat -> list engine_event) (i : nat) (session : string).
Hypothesis sched_quiet : forall k ev, ev ∈ sched k -> quiet i ev.

Lemma deliver_waiting evs st :
  (forall ev, ev ∈ evs -> quiet i ev) ->
  still_waiting i session st -> still_waiting i session (deliver evs st).
Proof.
  revert st. induction evs as [|ev evs IH]; intros st Hq Hw; [exact Hw|].
  simpl. apply IH.
  - intros ev' Hin. apply Hq. right. exact Hin.
  - apply quiet_event_waiting; [apply Hq; left | exact Hw].
Qed.

Lemma after_sleeps_waiting n from st :
  still_waiting i session st -> still_waiting i session (after_sleeps sched from n st).
Proof.
  revert from st. induction n as [|n IH]; intros from st Hw; [exact Hw|].
  simpl. apply IH. apply deliver_waiting; [apply sched_quiet | exact Hw].
Qed.

Lemma deliver_in_flight evs st :
  (forall ev, ev ∈ evs -> quiet i ev) ->
  CreateResolved i ∉ evs ->
  in_flight i st -> in_flight i (deliver evs st).
Proof.
  revert st. induction evs as [|ev evs IH]; intros st Hq Hr Hw; [exact Hw|].
  simpl. apply IH.
  - intros ev' Hin. apply Hq. right. exact Hin.
  - intros Hin. apply Hr. right. exact Hin.
  - apply calm_event_in_flight; [apply Hq; left | | exact Hw].
    intros ->. apply Hr. left.
Qed.


(** With no QR code and no failure in sight the loop is left by the clock
    alone, after the sixtieth sleep. *)
Lemma wait_runs_out n polls fuel st :
  polls + n = 60 -> n < fuel ->
  still_waiting i session st ->
  wait_for_qr fuel sched i polls st = Some (after_sleeps sched polls n st, 60).
Proof.
  revert polls fuel st. induction n as [|n IH]; intros polls fuel st Hp Hf Hw;
    (destruct fuel as [|fuel]; [lia|]);
    destruct Hw as (c & Hc & Hs & Hqr & He);
    cbn [wait_for_qr after_sleeps]; rewrite (closure_lookup _ _ _ Hc);
    unfold keep_waiting; rewrite Hqr, He; cbn [truthy reason_truthy negb andb].
  - replace polls with 60 by lia. reflexivity.
  - replace (poll_interval * Z.of_nat polls <? qrTimeout)%Z with true
      by (symmetry; apply Z.ltb_lt; unfold poll_interval, qrTimeout; lia).
    apply IH; [lia | lia |].
    apply deliver_waiting; [apply sched_quiet | exists c; auto].
Qed.
End QuietSchedule.


(** The QR code that arrives during the wait is returned at once, after
    five sleeps, with status qrcode. *)
Example qr_arrives_during_wait :
  wait_for_qr wait_fuel prompt_engine 0 0 acct1_starting
  = Some (deliver (prompt_engine 4) acct1_starting, 5)
  /\ reply (start_session empty_server "acct1" None true Never Never prompt_engine)
     = Some (Response 200 [("success", VBool true);
                           ("session", VStr "acct1");
                           ("qrCode", VStr "data:image/png;base64,iVBORw0KGgo");
                           ("status", VStr "qrcode");
                           ("message", VStr "QR Code ready - scan to connect");
                           ("webhook", VNull)]).
Proof. split; reflexivity. Qed.



(** * Properties of the rest of the server *)

(** ** Webhook dispatcher, any destination *)

Lemma pauses_cons_other e t :
  match e with Sleep _ => false | _ => true end = true ->
  pauses (e :: t) = pauses t.
Proof. destruct e; simpl; intros H; congruence || reflexivity. Qed.

Lemma pauses_cons_sleep ms t : pauses (Sleep ms :: t) = ms :: pauses t.
Proof. reflexivity. Qed.

Lemma pauses_app t1 t2 : pauses (t1 ++ t2) = (pauses t1 ++ pauses t2)%list.
Proof. apply omap_app. Qed.

Lemma posts_cons_post url session data now t :
  posts (Post url session data now :: t) = S (posts t).
Proof. reflexivity. Qed.

Lemma posts_cons_other e t : is_post e = false -> posts (e :: t) = posts t.
Proof. unfold posts. simpl. intros ->. reflexivity. Qed.

Lemma posts_app t1 t2 : posts (t1 ++ t2) = posts t1 + posts t2.
Proof. unfold posts. rewrite List.filter_app, length_app. reflexivity. Qed.

Lemma failure_log_not_post session o attempt retries :
  is_post (failure_log session o attempt retries) = false.
Proof. unfold failure_log. destruct (run_fetch o); reflexivity. Qed.

Lemma failure_log_not_sleep session o attempt retries :
  match failure_log session o attempt retries with Sleep _ => false | _ => true end = true.
Proof. unfold failure_log. destruct (run_fetch o); reflexivity. Qed.

(** One iteration of the loop, whatever the destination does. *)
Lemma attempt_step net url session data now retries remaining attempt :
  webhook_attempts net url session data now retries (S remaining) attempt
  = [Post url session data now; LogSent session]
  \/ webhook_attempts net url session data now retries (S remaining) attempt
     = Post url session data now
         :: failure_log session (net attempt) attempt retries
         :: ((if (attempt <? retries)%Z then [Sleep (backoff attempt)] else [])
             ++ webhook_attempts net url session data now retries remaining (attempt + 1))%list.
Proof.
  unfold failure_log. simpl.
  destruct (run_fetch (net attempt)) as [status|msg]; [|right; reflexivity].
  destruct (response_ok status); [left | right]; reflexivity.
Qed.

Lemma attempts_posts_and_pauses net url session data now retries remaining attempt :
  (attempt + Z.of_nat remaining = retries + 1)%Z ->
  let t := webhook_attempts net url session data now retries remaining attempt in
  posts t <= remaining
  /\ (0 < remaining -> 0 < posts t)
  /\ length (pauses t) = posts t - 1.
Proof.
  revert attempt. induction remaining as [|n IH]; intros attempt Hlen t; subst t.
  - unfold posts, pauses. simpl. repeat split; lia.
  - destruct (attempt_step net url session data now retries n attempt) as [-> | ->].
    + unfold posts, pauses. simpl. repeat split; lia.
    + destruct (IH (attempt + 1)%Z) as (Hle & Hpos & Hp); [clear -Hlen; lia|].
      rewrite posts_cons_post, posts_cons_other by apply failure_log_not_post.
      rewrite (pauses_cons_other (Post _ _ _ _)) by reflexivity.
      rewrite pauses_cons_other by apply failure_log_not_sleep.
      rewrite posts_app, pauses_app, length_app, Hp.
      destruct n as [|n].
      * replace (attempt <? retries)%Z with false
          by (symmetry; apply Z.ltb_ge; clear -Hlen; lia).
        change (posts []) with 0. change (length (@nil Z)) with 0.
        repeat split; lia.
      * replace (attempt <? retries)%Z with true
          by (symmetry; apply Z.ltb_lt; clear -Hlen; lia).
        specialize (Hpos ltac:(lia)).
        change (posts [Sleep (backoff attempt)]) with 0.
        change (length (pauses [Sleep (backoff attempt)])) with 1.
        repeat split; lia.
Qed.

Lemma skeleton_cons_log e t : is_pace e = false -> skeleton (e :: t) = skeleton t.
Proof. unfold skeleton. simpl. intros ->. reflexivity. Qed.

Lemma skeleton_cons_post url session data now t :
  skeleton (Post url session data now :: t) = Post url session data now :: skeleton t.
Proof. reflexivity. Qed.

Lemma skeleton_app t1 t2 : skeleton (t1 ++ t2) = (skeleton t1 ++ skeleton t2)%list.
Proof. apply List.filter_app. Qed.

Lemma failure_log_not_pace session o attempt retries :
  is_pace (failure_log session o attempt retries) = false.
Proof. unfold failure_log. destruct (run_fetch o); reflexivity. Qed.

Lemma posts_paced url session data now first m :
  posts (paced url session data now first m) = m.
Proof.
  destruct m as [|m]; [reflexivity|]. unfold paced. rewrite posts_cons_post. f_equal.
  generalize first. induction m as [|m IH]; intros a; [reflexivity|].
  rewrite (seqZ_cons a) by lia. cbn [flat_map].
  rewrite posts_app. change (posts [Sleep (backoff a); Post url session data now]) with 1.
  replace (Z.pred (Z.of_nat (S m))) with (Z.of_nat m) by lia.
  rewrite IH. reflexivity.
Qed.

Lemma posts_skeleton t : posts (skeleton t) = posts t.
Proof.
  unfold posts, skeleton. induction t as [|e t IH]; [reflexivity|].
  destruct e; simpl; rewrite ?IH; reflexivity.
Qed.

(** Whatever the destination does, the posts and sleeps of the loop come
    in the order post, sleep, post, ..., post. *)
Lemma attempts_skeleton net url session data now retries remaining attempt :
  (attempt + Z.of_nat remaining = retries + 1)%Z ->
  exists m, m <= remaining
            /\ (0 < remaining -> 0 < m)
            /\ skeleton (webhook_attempts net url session data now retries remaining attempt)
               = paced url session data now attempt m.
Proof.
  revert attempt. induction remaining as [|n IH]; intros attempt Hlen.
  - exists 0. repeat split; [lia | lia].
  - destruct (attempt_step net url session data now retries n attempt) as [-> | ->].
    + exists 1. repeat split; lia.
    + destruct (IH (attempt + 1)%Z) as (m & Hle & Hpos & Hsk); [clear -Hlen; lia|].
      rewrite skeleton_cons_post.
      rewrite skeleton_cons_log by apply failure_log_not_pace.
      rewrite skeleton_app, Hsk.
      destruct n as [|n].
      * replace (attempt <? retries)%Z with false
          by (symmetry; apply Z.ltb_ge; clear -Hlen; lia).
        assert (m = 0) as -> by lia.
        exists 1. split; [lia|]. split; [lia|]. reflexivity.
      * replace (attempt <? retries)%Z with true
          by (symmetry; apply Z.ltb_lt; clear -Hlen; lia).
        destruct m as [|m]; [specialize (Hpos ltac:(lia)); lia|].
        exists (S (S m)). split; [lia|]. split; [lia|].
        change (skeleton [Sleep (backoff attempt)]) with [Sleep (backoff attempt)].
        unfold paced. rewrite (seqZ_cons attempt (Z.of_nat (S m))) by lia.
        replace (Z.succ attempt) with (attempt + 1)%Z by lia.
        replace (Z.pred (Z.of_nat (S m))) with (Z.of_nat m) by lia.
        reflexivity.
Qed.

(** X1: whatever the destination does on each attempt, a dispatch posts at
    most [retries] times and returns normally, and its posts and sleeps
    come in the order post, sleep, post, ..., sleep, post: the sleep after
    attempt [k] is [backoff k], it stands between attempt [k] and attempt
    [k + 1], and there is no sleep before the first post or after the
    last. *)
Theorem sendToWebhook_bounded st net session data now retries :
  (0 <= retries)%Z ->
  let '(trace, how) := sendToWebhook st net session data now retries in
  (exists m, m <= Z.to_nat retries
             /\ posts trace = m
             /\ skeleton trace
                = paced (default "" (webhooks st !! session)) session data now 1 m)
  /\ length (pauses trace) = posts trace - 1
  /\ how = Returned.
Proof.
  intros Hr. unfold sendToWebhook.
  destruct (webhooks st !! session) as [[|a u]|]; cbn [truthy default];
    try (split; [exists 0; repeat split; lia | split; reflexivity]).
  destruct (attempts_posts_and_pauses net (String a u) session data now retries
              (Z.to_nat retries) 1) as (_ & _ & Hp); [lia|].
  destruct (attempts_skeleton net (String a u) session data now retries
              (Z.to_nat retries) 1) as (m & Hle & _ & Hsk); [lia|].
  split; [|split; [exact Hp | reflexivity]].
  exists m. split; [exact Hle|]. split; [|exact Hsk].
  rewrite <- posts_skeleton, Hsk. apply posts_paced.
Qed.

Lemma sendToWebhook_bounded_witness :
  skeleton (sendToWebhook acct1_hooked recovering_destination "acct1" [] 0
                          default_retries).1
  = [ Post "https://hooks.example/in" "acct1" [] 0; Sleep 1000;
      Post "https://hooks.example/in" "acct1" [] 0; Sleep 2000;
      Post "https://hooks.example/in" "acct1" [] 0 ].
Proof.
  pose proof (sendToWebhook_bounded acct1_hooked recovering_destination "acct1" [] 0
                default_retries) as H.
  destruct (sendToWebhook acct1_hooked recovering_destination "acct1" [] 0
              default_retries) as [trace how] eqn:Ht.
  destruct H as ((m & _ & Hm & Hsk) & _ & _); [unfold default_retries; lia|].
  cbn [fst]. rewrite Hsk.
  assert (Hp : posts trace = 3)
    by (change trace with (trace, how).1; rewrite <- Ht; reflexivity).
  rewrite Hp in Hm. subst m. reflexivity.
Defined.

Lemma succeeding_attempt_step net url session data now retries remaining attempt :
  attempt_succeeds (net attempt) ->
  webhook_attempts net url session data now retries (S remaining) attempt
  = [Post url session data now; LogSent session].
Proof.
  unfold attempt_succeeds. simpl.
  destruct (run_fetch (net attempt)) as [status|msg]; [|contradiction].
  intros ->. reflexivity.
Qed.

Lemma attempts_until_success net url session data now retries failures :
  forall remaining attempt,
  (attempt + Z.of_nat remaining = retries + 1)%Z ->
  failures < remaining ->
  (forall a, (attempt <= a < attempt + Z.of_nat failures)%Z -> attempt_fails (net a)) ->
  attempt_succeeds (net (attempt + Z.of_nat failures)%Z) ->
  let t := webhook_attempts net url session data now retries remaining attempt in
  posts t = S failures
  /\ pauses t = backoff <$> seqZ attempt (Z.of_nat failures)
  /\ last t = Some (LogSent session)
  /\ List.filter is_permanent_failure t = [].
Proof.
  induction failures as [|j IH]; intros remaining attempt Hlen Hlt Hf Hs t; subst t;
    (destruct remaining as [|n]; [lia|]).
  - rewrite succeeding_attempt_step
      by (replace attempt with (attempt + Z.of_nat 0)%Z by lia; exact Hs).
    repeat split.
  - rewrite failing_attempt_step by (apply Hf; clear; lia).
    replace (attempt <? retries)%Z with true
      by (symmetry; apply Z.ltb_lt; clear -Hlen Hlt; lia).
    destruct (IH n (attempt + 1)%Z) as (Hp & Hpa & Hl & Hn).
    + clear -Hlen; lia.
    + lia.
    + intros a Ha. apply Hf. clear -Ha. lia.
    + replace (attempt + 1 + Z.of_nat j)%Z with (attempt + Z.of_nat (S j))%Z
        by (clear; lia). exact Hs.
    + rewrite posts_cons_post, posts_cons_other by apply failure_log_not_post.
      rewrite (pauses_cons_other (Post _ _ _ _)) by reflexivity.
      rewrite pauses_cons_other by apply failure_log_not_sleep.
      cbn [app]. rewrite posts_cons_other by reflexivity.
      rewrite pauses_cons_sleep, Hp, Hpa. repeat split.
      * rewrite (seqZ_cons attempt) by (clear; lia). rewrite fmap_cons.
        f_equal. f_equal. f_equal; clear; lia.
      * destruct (webhook_attempts net url session data now retries n (attempt + 1))
          as [|e t'] eqn:Ht; [discriminate Hl|].
        rewrite <- Hl. unfold failure_log.
        destruct (run_fetch (net attempt)); reflexivity.
      * unfold failure_log. destruct (run_fetch (net attempt)); simpl; exact Hn.
Qed.

(** X2: when the destination fails [k - 1] times and then accepts the
    [k]-th attempt, with [k] within the budget, the dispatcher posts
    exactly [k] times, pausing [backoff 1 .. backoff (k - 1)] in between,
    ends with the success log and never logs a permanent failure. *)
Theorem sendToWebhook_stops_at_first_success st net session url data now retries k :
  webhooks st !! session = Some url ->
  url <> "" ->
  (1 <= k <= retries)%Z ->
  (forall a, (1 <= a < k)%Z -> attempt_fails (net a)) ->
  attempt_succeeds (net k) ->
  let trace := (sendToWebhook st net session data now retries).1 in
  posts trace = Z.to_nat k
  /\ pauses trace = backoff <$> seqZ 1 (k - 1)
  /\ last trace = Some (LogSent session)
  /\ List.filter is_permanent_failure trace = [].
Proof.
  intros Hurl Hne Hk Hf Hs trace. subst trace. unfold sendToWebhook. rewrite Hurl.
  destruct url as [|a u]; [congruence|]. cbn [truthy fst].
  destruct (attempts_until_success net (String a u) session data now retries
              (Z.to_nat (k - 1)) (Z.to_nat retries) 1) as (Hp & Hpa & Hl & Hn).
  - lia.
  - lia.
  - intros b Hb. apply Hf. lia.
  - replace (1 + Z.of_nat (Z.to_nat (k - 1)))%Z with k by lia. exact Hs.
  - rewrite Hp, Hpa, Hl, Hn. repeat split; [lia | f_equal; f_equal; lia].
Qed.

Lemma sendToWebhook_stops_at_first_success_witness :
  pauses (sendToWebhook acct1_hooked recovering_destination "acct1" [] 0 default_retries).1
  = [1000; 2000]%Z.
Proof.
  destruct (sendToWebhook_stops_at_first_success acct1_hooked recovering_destination
              "acct1" "https://hooks.example/in" [] 0 default_retries 3)
    as (_ & Hp & _ & _).
  - reflexivity.
  - discriminate.
  - unfold default_retries. lia.
  - intros a Ha. assert (a = 1 \/ a = 2)%Z as [-> | ->] by lia; reflexivity.
  - reflexivity.
  - rewrite Hp. reflexivity.
Defined.

(** X3: for any retry budget [n >= 0], a destination that always fails is
    posted to exactly [n] times with pauses [backoff 1 .. backoff (n - 1)],
    and the trace ends with the permanent-failure log; with a budget of
    zero that log is all there is. *)
Theorem sendToWebhook_exhausts_budget st net session url data now retries :
  webhooks st !! session = Some url ->
  url <> "" ->
  (0 <= retries)%Z ->
  (forall a, attempt_fails (net a)) ->
  let trace := (sendToWebhook st net session data now retries).1 in
  posts trace = Z.to_nat retries
  /\ pauses trace = backoff <$> seqZ 1 (retries - 1)
  /\ last trace = Some (LogPermanentFailure session retries).
Proof.
  intros Hurl Hne Hr Hf trace. subst trace. unfold sendToWebhook. rewrite Hurl.
  destruct url as [|a u]; [congruence|]. cbn [truthy fst].
  split; [apply failing_attempts_posts; exact Hf|]. split.
  - rewrite failing_attempts_pauses by (exact Hf || lia).
    f_equal. f_equal. lia.
  - generalize 1%Z as attempt.
    induction (Z.to_nat retries) as [|n IH]; intros attempt; [reflexivity|].
    rewrite failing_attempt_step by apply Hf.
    specialize (IH (attempt + 1)%Z).
    destruct (webhook_attempts net (String a u) session data now retries n (attempt + 1))
      as [|e t] eqn:Ht; [discriminate IH|].
    rewrite <- IH.
    destruct (attempt <? retries)%Z; unfold failure_log;
      destruct (run_fetch (net attempt)); reflexivity.
Qed.

Lemma sendToWebhook_exhausts_budget_witness :
  pauses (sendToWebhook acct1_hooked refusing_destination "acct1" [] 0 4).1
  = [1000; 2000; 4000]%Z.
Proof.
  destruct (sendToWebhook_exhausts_budget acct1_hooked refusing_destination
              "acct1" "https://hooks.example/in" [] 0 4) as (_ & Hp & _).
  - reflexivity.
  - discriminate.
  - lia.
  - intros a. reflexivity.
  - rewrite Hp. reflexivity.
Defined.

(** ** Webhook registration *)

(** X4: a URL registered through the webhook route is the one the next
    dispatch posts to; after the delete route a dispatch does nothing at
    all; both routes leave the registrations of other sessions alone, and
    a request without a URL (or with an empty one) changes nothing. *)
Theorem webhook_registration_round_trip st session other url net data now retries :
  url <> "" ->
  (1 <= retries)%Z ->
  let st1 := final (set_webhook_route st session (Some url)) in
  let st2 := final (remove_webhook_route st1 session) in
  head (sendToWebhook st1 net session data now retries).1
  = Some (Post url session data now)
  /\ sendToWebhook st2 net session data now retries = ([], Returned)
  /\ (other <> session ->
      webhooks st1 !! other = webhooks st !! other
      /\ webhooks st2 !! other = webhooks st !! other)
  /\ final (set_webhook_route st session None) = st
  /\ final (set_webhook_route st session (Some "")) = st.
Proof.
  intros Hne Hr st1 st2. destruct url as [|a u]; [congruence|].
  assert (H1 : webhooks st1 !! session = Some (String a u)).
  { subst st1. simpl. apply lookup_insert_eq. }
  assert (H2 : webhooks st2 !! session = None).
  { subst st2. simpl. apply lookup_delete_eq. }
  split; [|split; [|split; [|split; reflexivity]]].
  - unfold sendToWebhook. rewrite H1. cbn [truthy fst].
    destruct (Z.to_nat retries) as [|n] eqn:Hn; [lia|].
    destruct (attempt_step net (String a u) session data now retries n 1) as [-> | ->];
      reflexivity.
  - unfold sendToWebhook. rewrite H2. reflexivity.
  - intros Ho. subst st2 st1. simpl.
    rewrite lookup_delete_ne, lookup_insert_ne by congruence. split; reflexivity.
Qed.

Lemma webhook_registration_round_trip_witness :
  head (sendToWebhook
          (final (set_webhook_route empty_server "acct1" (Some "https://hooks.example/in")))
          refusing_destination "acct1" [] 0 default_retries).1
  = Some (Post "https://hooks.example/in" "acct1" [] 0).
Proof.
  destruct (webhook_registration_round_trip empty_server "acct1" "acct2"
              "https://hooks.example/in" refusing_destination [] 0 default_retries)
    as [H _].
  - discriminate.
  - unfold default_retries. lia.
  - exact H.
Defined.

Lemma webhooks_apply_event ev st : webhooks (apply_event ev st) = webhooks st.
Proof.
  destruct ev as [i q|i status|i|i err]; simpl;
    [unfold catchQR | unfold statusFind | unfold create_resolved | unfold create_rejected];
    destruct (creations st !! i) as [c|]; try reflexivity.
  - destruct (reports_authenticated status); reflexivity.
  - destruct (cr_promise c); reflexivity.
  - destruct (cr_promise c); reflexivity.
Qed.

Lemma webhooks_deliver evs st : webhooks (deliver evs st) = webhooks st.
Proof.
  revert st. induction evs as [|ev evs IH]; intros st; [reflexivity|].
  simpl. rewrite IH. apply webhooks_apply_event.
Qed.

Lemma webhooks_logout st session logging_out closing :
  webhooks (final (logout_route st session logging_out closing)) = webhooks st.
Proof.
  unfold logout_route. destruct (clients st !! session); [|reflexivity].
  destruct (race_timeout logging_out logout_limit "Logout timeout");
    [destruct (await closing)| |]; reflexivity.
Qed.

(** X5: a webhook registration outlives the session: logout (however it
    ends), every engine callback and continuation, and shutdown leave the
    webhook map as it was, so a dispatch for a logged-out session still
    behaves exactly as before. *)
Theorem webhook_survives_teardown st session logging_out closing ev entries closings
    net s data now retries :
  webhooks (final (logout_route st session logging_out closing)) = webhooks st
  /\ webhooks (apply_event ev st) = webhooks st
  /\ webhooks (after (shutdown false entries closings st)) = webhooks st
  /\ sendToWebhook (final (logout_route st session logging_out closing))
                   net s data now retries
     = sendToWebhook st net s data now retries.
Proof.
  split; [apply webhooks_logout|]. split; [apply webhooks_apply_event|]. split.
  - unfold shutdown. destruct (forallb _ entries); reflexivity.
  - unfold sendToWebhook. rewrite webhooks_logout. reflexivity.
Qed.

(** ** Authentication and routing *)

Lemma remove_first_bearer k : remove_first "Bearer " ("Bearer " +:+ k) = k.
Proof. destruct k; reflexivity. Qed.

(** X6: with a non-empty configured key, [authenticate] lets through a
    request carrying [Authorization: Bearer <key>], or the bare key in
    [x-api-key] when there is no Authorization header or it is just the
    Bearer prefix; it stops a request with neither header, and a wrong
    Authorization header is not rescued by a right [x-api-key]. *)
Theorem authenticate_accepts_the_key API_KEY m path other :
  API_KEY <> "" ->
  authenticate API_KEY (Request m path (Some ("Bearer " +:+ API_KEY)) other) = true
  /\ authenticate API_KEY (Request m path None (Some API_KEY)) = true
  /\ authenticate API_KEY (Request m path (Some "Bearer ") (Some API_KEY)) = true
  /\ authenticate API_KEY (Request m path None None) = false
  /\ (forall wrong,
      remove_first "Bearer " wrong <> "" ->
      remove_first "Bearer " wrong <> API_KEY ->
      authenticate API_KEY (Request m path (Some wrong) (Some API_KEY)) = false).
Proof.
  intros Hne. destruct API_KEY as [|a k]; [congruence|].
  unfold authenticate, presented_key. cbn [authorization x_api_key].
  rewrite remove_first_bearer.
  change (remove_first "Bearer " "Bearer ") with "".
  cbv iota. rewrite String.eqb_refl.
  do 4 (split; [reflexivity|]).
  intros wrong Hw1 Hw2.
  destruct (remove_first "Bearer " wrong) as [|b w] eqn:Hrm; [congruence|].
  apply String.eqb_neq. exact Hw2.
Qed.

Lemma authenticate_accepts_the_key_witness :
  authenticate "s3cret" (Request GET ["api"; "sessions"] (Some "Bearer s3cret") None) = true
  /\ authenticate "s3cret" (Request GET ["api"; "sessions"] (Some "Bearer guess")
                                    (Some "s3cret")) = false.
Proof.
  destruct (authenticate_accepts_the_key "s3cret" GET ["api"; "sessions"] None)
    as (Ha & _); [discriminate|].
  destruct (authenticate_accepts_the_key "s3cret" GET ["api"; "sessions"] None)
    as (_ & _ & _ & _ & Hb); [discriminate|].
  split; [exact Ha|]. apply (Hb "Bearer guess"); discriminate.
Defined.

Lemma find_route_in rs rq r params :
  find_route rs rq = Some (r, params) -> r ∈ rs /\ matches r rq = true.
Proof.
  induction rs as [|r0 rs IH]; [discriminate|]. simpl. unfold matches at 1.
  destruct (method_eqb (r_method r0) (rq_method rq)) eqn:Hm;
    [destruct (match_path (r_path r0) (rq_path rq)) eqn:Hp|].
  - intros [= -> _]. split; [left|]. unfold matches. rewrite Hm, Hp. reflexivity.
  - intros H. destruct (IH H). split; [right|]; assumption.
  - intros H. destruct (IH H). split; [right|]; assumption.
Qed.

(** X7: no handler of the API is ever invoked for a request that fails
    [authenticate]: whenever dispatch hands a request to a handler, the
    request carried the configured key. *)
Theorem handlers_run_only_with_the_key API_KEY info st rq h params :
  dispatch API_KEY info st rq = Invokes h params ->
  authenticate API_KEY rq = true
  /\ h <> RootRoute /\ h <> HealthRoute.
Proof.
  unfold dispatch.
  destruct (find_route routes rq) as [[r ps]|] eqn:Hf; [|discriminate].
  destruct (find_route_in _ _ _ _ Hf) as [Hin _].
  pose proof (proj1 (Forall_forall _ _) routes_authenticate_iff_not_liveness r Hin) as Hr.
  simpl in Hr.
  destruct (authenticate API_KEY rq); rewrite Hr;
    destruct (r_handler r); simpl; intros H; inversion H; subst;
    repeat split; discriminate.
Qed.

Lemma handlers_run_only_with_the_key_witness :
  authenticate "s3cret"
    (Request POST ["api"; "acct1"; "logout"] None (Some "s3cret")) = true.
Proof.
  apply (handlers_run_only_with_the_key "s3cret"
           (ProcessInfo "" "" "" 0 0 None "/data/wpp-tokens") empty_server
           (Request POST ["api"; "acct1"; "logout"] None (Some "s3cret"))
           Logout [("session", "acct1")]).
  reflexivity.
Defined.

(** Decides the comparisons of a path segment with the literals of the
    route table, one segment at a time. *)
Ltac settle_eqb :=
  repeat match goal with
         | |- context [String.eqb ?a ?b] =>
             first [ is_var b; destruct (String.eqb_spec a b) as [<-|?]
                   | let v := eval vm_compute in (String.eqb a b) in
                     change (String.eqb a b) with v ]
         end.

(** Lower-cases the literals and names the lower-cased segments. *)
Ltac settle_lower :=
  repeat match goal with
         | |- context [lower (String ?a ?s)] =>
             let v := eval vm_compute in (lower (String a s)) in
             change (lower (String a s)) with v
         end;
  repeat match goal with
         | |- context [lower ?x] => is_var x; generalize (lower x); intro
         end;
  repeat match goal with
         | |- context [nonempty ?x] => destruct (nonempty x)
         end.

Lemma lower_nonempty s : nonempty s = true -> String.eqb (lower s) "" = false.
Proof. destruct s; [discriminate | reflexivity]. Qed.

(** No route pattern with non-empty literals matches, slash for slash, a
    path that ends in a slash. *)
Lemma strict_trailing_slash pat :
  literals_nonempty pat = true ->
  forall path, express_match_strict pat (path ++ [""]) = false.
Proof.
  induction pat as [|[s|name] pat IH]; intros Hl path.
  - destruct path; reflexivity.
  - cbn [literals_nonempty forallb] in Hl. apply andb_true_iff in Hl as [Hs Hl].
    destruct path as [|x path]; cbn [app express_match_strict].
    + change (lower "") with "". rewrite (lower_nonempty s Hs). reflexivity.
    + rewrite (IH Hl). apply andb_false_r.
  - cbn [literals_nonempty forallb] in Hl.
    destruct path as [|x path]; cbn [app express_match_strict]; [reflexivity|].
    rewrite (IH Hl). apply andb_false_r.
Qed.

Lemma routes_literals_nonempty :
  Forall (fun r => literals_nonempty (r_path r) = true) routes.
Proof. unfold routes. repeat constructor. Qed.

(** For the registered routes the optional trailing slash is simply
    dropped before a slash-for-slash match. *)
Lemma express_match_strips r path :
  r ∈ routes ->
  express_match (r_path r) path = express_match_strict (r_path r) (strip_slash path).
Proof.
  intros Hin.
  pose proof (proj1 (Forall_forall _ _) routes_literals_nonempty r Hin) as Hl.
  unfold express_match, strip_slash.
  destruct (last path) as [[|a x]|] eqn:Hlast; try apply orb_diag.
  apply last_Some in Hlast as [path' ->].
  rewrite (strict_trailing_slash _ Hl). reflexivity.
Qed.

Lemma strict_routes_disjoint m path :
  length (List.filter (fun r => method_eqb (r_method r) m
                                && express_match_strict (r_path r) path) routes) <= 1.
Proof.
  destruct path as [|s1 [|s2 [|s3 [|s4 [|s5 path]]]]]; destruct m;
    cbv [routes List.filter r_method r_path method_eqb andb express_match_strict];
    settle_lower; settle_eqb; cbv [length]; lia.
Qed.

(** X8: the registered routes do not overlap under the router's own
    matching (letters compared without regard to case, one optional
    trailing slash, a placeholder standing for a non-empty segment): for
    any GET, POST or DELETE request path at most one route matches, so the
    order of registration never decides which handler runs. *)
Theorem routes_do_not_overlap m path :
  length (List.filter (fun r => express_matches r m path) routes) <= 1.
Proof.
  rewrite (List.filter_ext_in
             (fun r => express_matches r m path)
             (fun r => method_eqb (r_method r) m
                       && express_match_strict (r_path r) (strip_slash path))).
  - apply strict_routes_disjoint.
  - intros r Hin. unfold express_matches.
    rewrite express_match_strips by (apply list_elem_of_In; exact Hin). reflexivity.
Qed.

(** The status route answers to any spelling of its literals and to a
    trailing slash, and to nothing when the session segment is empty. *)
Example status_route_spellings :
  List.filter (fun r => express_matches r GET ["API"; "acct1"; "Status"; ""]) routes
  = [Route GET [Lit "api"; Par "session"; Lit "status"] [Authenticate] Status]
  /\ List.filter (fun r => express_matches r GET ["api"; ""; "status"]) routes = [].
Proof. split; reflexivity. Qed.

(** ** Start-session: the paths around the guard *)

Lemma webhooks_wait fuel sched i polls st st' n :
  wait_for_qr fuel sched i polls st = Some (st', n) ->
  webhooks st' = webhooks st.
Proof.
  revert polls st. induction fuel as [|fuel IH]; intros polls st; simpl;
    destruct (keep_waiting (closure i st) polls); try discriminate.
  - intros [= -> _]. reflexivity.
  - intros H. rewrite (IH _ _ H). apply webhooks_deliver.
  - intros [= -> _]. reflexivity.
Qed.

(** X9: when the connectivity check of the registered handle rejects, the
    handle counts as stale: start-session closes it (a rejecting close is
    tolerated), drops it and any cached QR from the maps, and launches a
    fresh engine; without waitQrCode it answers 200 with status
    initializing and the registry has no entry for the id until the new
    creation resolves. *)
Theorem start_session_replaces_stale_handle st session h webhook waitQrCode
    ms msg closing sched :
  clients st !! session = Some h ->
  settles closing ->
  let r := start_session st session webhook waitQrCode (Rejects ms msg) closing sched in
  calls r = [EIsConnected h; EClose h; ECreate session]
  /\ launched session (final r) = S (launched session st)
  /\ (waitQrCode = false ->
      reply r = Some (started session webhook (new_creation session))
      /\ clients (final r) !! session = None
      /\ qrCodes (final r) !! session = None).
Proof.
  intros Hhit Hclose r.
  assert (Hg : start_guard st session (Rejects ms msg) closing
               = (GuardFallsThrough (purge session st), [EIsConnected h; EClose h])).
  { unfold start_guard. rewrite Hhit. simpl.
    destruct closing; simpl in *; [reflexivity | reflexivity | contradiction]. }
  destruct (start_session_launches_once st (purge session st) _ session webhook
              waitQrCode (Rejects ms msg) closing sched Hg eq_refl) as [Hc Hl].
  split; [exact Hc|]. split; [exact Hl|].
  intros ->. subst r. unfold start_session. rewrite Hg.
  unfold launch. cbv iota beta. cbn [final reply].
  split; [|split; apply lookup_delete_eq].
  unfold closure. cbn [creations purge].
  rewrite lookup_app_r by lia. rewrite Nat.sub_diag. reflexivity.
Qed.

Lemma start_session_replaces_stale_handle_witness :
  calls (start_session acct1_pairing "acct1" None false (Rejects 12 "Target closed")
                       (Rejects 3 "Target closed") (fun _ => []))
  = [EIsConnected 0; EClose 0; ECreate "acct1"].
Proof.
  destruct (start_session_replaces_stale_handle acct1_pairing "acct1" 0 None false
              12 "Target closed" (Rejects 3 "Target closed") (fun _ => []))
    as [H _]; [reflexivity | exact I | exact H].
Defined.

(** X10: when the registered handle reports not connected and no QR is
    cached, start-session launches another engine for the id without
    closing the old one; without waitQrCode the old handle is still the
    registry entry when the call answers. *)
Theorem start_session_relaunches_beside_idle_handle st session h webhook waitQrCode
    ms closing sched :
  clients st !! session = Some h ->
  qrCodes st !! session = None ->
  let r := start_session st session webhook waitQrCode (Resolves ms false) closing sched in
  calls r = [EIsConnected h; ECreate session]
  /\ launched session (final r) = S (launched session st)
  /\ (waitQrCode = false -> clients (final r) !! session = Some h).
Proof.
  intros Hhit Hqr r.
  assert (Hg : start_guard st session (Resolves ms false) closing
               = (GuardFallsThrough st, [EIsConnected h])).
  { unfold start_guard. rewrite Hhit. simpl. rewrite Hqr. reflexivity. }
  destruct (start_session_launches_once st st _ session webhook
              waitQrCode (Resolves ms false) closing sched Hg eq_refl) as [Hc Hl].
  split; [exact Hc|]. split; [exact Hl|].
  intros ->. subst r. unfold start_session. rewrite Hg. exact Hhit.
Qed.

Lemma start_session_relaunches_beside_idle_handle_witness :
  launched "acct1"
    (final (start_session two_sessions "acct1" None false (Resolves 2 false) Never
                          (fun _ => [])))
  = 2.
Proof.
  destruct (start_session_relaunches_beside_idle_handle two_sessions "acct1" 0 None
              false 2 Never (fun _ => [])) as (_ & H & _);
    [reflexivity | reflexivity |].
  rewrite H. reflexivity.
Defined.

(** X11: the webhook of a start-session request is registered exactly when
    the call gets past the guard: it is then in the webhook map whatever
    becomes of the creation (QR, timeout or failure), while a call that
    the guard answers leaves the webhook map as it was. *)
Theorem start_session_webhook_registration st session url waitQrCode conn closing sched :
  url <> "" ->
  let r := start_session st session (Some url) waitQrCode conn closing sched in
  match (start_guard st session conn closing).1 with
  | GuardFallsThrough _ => webhooks (final r) !! session = Some url
  | _ => webhooks (final r) = webhooks st
  end.
Proof.
  intros Hne r. subst r. unfold start_session.
  destruct (start_guard st session conn closing) as [[resp|st1|] cs] eqn:Hg;
    cbn [fst]; try reflexivity.
  assert (H1 : webhooks st1 = webhooks st).
  { unfold start_guard in Hg. destruct (clients st !! session); [|congruence].
    destruct (await conn) as [[|]| |];
      [|destruct (qrCodes st !! session)|destruct (await closing)|];
      inversion Hg; reflexivity. }
  destruct url as [|a u]; [congruence|].
  unfold launch. cbv iota beta.
  set (st2 := Server _ _ _ _).
  assert (H2 : webhooks st2 !! session = Some (String a u)) by apply lookup_insert_eq.
  destruct waitQrCode; [|exact H2].
  destruct (wait_for_qr wait_fuel sched (length (creations st1)) 0 st2)
    as [[st3 n]|] eqn:Hw; [|exact H2].
  pose proof (webhooks_wait _ _ _ _ _ _ _ Hw) as H3.
  destruct (reason_truthy _); [|destruct (truthy _)];
    cbn [final start_failed purge webhooks]; rewrite H3; exact H2.
Qed.

Lemma start_session_webhook_registration_witness :
  webhooks (final (start_session empty_server "acct1" (Some "https://hooks.example/in")
                                 true Never Never slow_engine)) !! "acct1"
  = Some "https://hooks.example/in".
Proof.
  apply (start_session_webhook_registration empty_server "acct1"
           "https://hooks.example/in" true Never Never slow_engine).
  discriminate.
Defined.

(** ** Start-session: how the QR wait ends *)

Lemma launch_waiting st session webhook :
  still_waiting (length (creations st)) session (launch st session webhook).1
  /\ in_flight (length (creations st)) (launch st session webhook).1.
Proof.
  split; exists (new_creation session); unfold launch; cbn [fst creations];
    rewrite lookup_app_r by lia; rewrite Nat.sub_diag; repeat split.
Qed.

(** While nothing happens to the instance, the loop just goes on: [n]
    quiet sleeps are skipped over. *)
Lemma wait_skips_quiet_sleeps sched i session n :
  forall polls fuel st,
  polls + n <= 60 ->
  (forall k ev, polls <= k < polls + n -> ev ∈ sched k -> quiet i ev) ->
  still_waiting i session st ->
  wait_for_qr (n + fuel) sched i polls st
  = wait_for_qr fuel sched i (polls + n) (after_sleeps sched polls n st)
  /\ still_waiting i session (after_sleeps sched polls n st).
Proof.
  induction n as [|n IH]; intros polls fuel st Hp Hq Hw.
  - rewrite Nat.add_0_r. split; [reflexivity | exact Hw].
  - pose proof Hw as (c & Hc & Hs & Hqr & He).
    cbn [Nat.add wait_for_qr after_sleeps]. rewrite (closure_lookup _ _ _ Hc).
    unfold keep_waiting. rewrite Hqr, He. cbn [truthy reason_truthy negb andb].
    replace (poll_interval * Z.of_nat polls <? qrTimeout)%Z with true
      by (symmetry; apply Z.ltb_lt; unfold poll_interval, qrTimeout; lia).
    replace (polls + S n) with (S polls + n) by lia.
    apply IH; [lia | |].
    + intros k ev Hk. apply Hq. lia.
    + apply deliver_waiting; [|exact Hw]. intros ev. apply Hq. lia.
Qed.

Lemma quiet_sleeps_in_flight sched i n :
  forall from st,
  (forall k ev, from <= k < from + n -> ev ∈ sched k -> quiet i ev) ->
  (forall k, from <= k < from + n -> CreateResolved i ∉ sched k) ->
  in_flight i st -> in_flight i (after_sleeps sched from n st).
Proof.
  induction n as [|n IH]; intros from st Hq Hr Hf; [exact Hf|].
  simpl. apply IH.
  - intros k ev Hk. apply Hq. lia.
  - intros k Hk. apply Hr. lia.
  - apply deliver_in_flight; [intros ev; apply Hq; lia | apply Hr; lia | exact Hf].
Qed.

(** X12: when the engine stays quiet for [k] sleeps and shows its QR code
    during sleep number [k] (counting from 0, [k < 60]), a start-session
    call with waitQrCode answers right after that sleep, that is after
    [k + 1] sleeps of 500 ms, with status qrcode and that payload, which
    is also the cached QR of the id. *)
Theorem qr_wait_returns_the_qr st st1 cs session webhook conn closing sched k qr :
  start_guard st session conn closing = (GuardFallsThrough st1, cs) ->
  k < 60 ->
  qr <> "" ->
  (forall j ev, j < k -> ev ∈ sched j -> quiet (length (creations st1)) ev) ->
  sched k = [CatchQR (length (creations st1)) qr] ->
  let st2 := (launch st1 session webhook).1 in
  let r := start_session st session webhook true conn closing sched in
  (exists st3, wait_for_qr wait_fuel sched (length (creations st1)) 0 st2
               = Some (st3, S k))
  /\ reply r = Some (Response 200 [("success", VBool true);
                                   ("session", VStr session);
                                   ("qrCode", VStr qr);
                                   ("status", VStr "qrcode");
                                   ("message", VStr "QR Code ready - scan to connect");
                                   ("webhook", or_null webhook)])
  /\ qrCodes (final r) !! session = Some qr.
Proof.
  intros Hg Hk Hne Hq Hev st2 r. set (i := length (creations st1)) in *.
  destruct (launch_waiting st1 session webhook) as [Hw2 _]. fold i st2 in Hw2.
  destruct (wait_skips_quiet_sleeps sched i session k 0 (wait_fuel - k) st2)
    as [Hskip Hwk]; [lia | intros j ev Hj; apply Hq; lia | exact Hw2 |].
  replace (k + (wait_fuel - k)) with wait_fuel in Hskip by (unfold wait_fuel; lia).
  set (stk := after_sleeps sched 0 k st2) in *.
  destruct Hwk as (c & Hc & Hs & Hqr & He).
  pose proof (lookup_lt_Some _ _ _ Hc) as Hlt.
  set (c' := Creation (cr_session c) (cr_promise c) (Some qr) "qrcode"
                      (clientCreated c) (createError c)).
  set (st3 := catchQR i qr stk).
  assert (Hc3 : creations st3 !! i = Some c').
  { subst st3. unfold catchQR. rewrite Hc. cbn [creations].
    apply list_lookup_insert_eq. exact Hlt. }
  assert (Hq3 : qrCodes st3 !! session = Some qr).
  { subst st3. unfold catchQR. rewrite Hc. cbn [qrCodes]. rewrite Hs.
    apply lookup_insert_eq. }
  assert (Hwait : wait_for_qr wait_fuel sched i 0 st2 = Some (st3, S k)).
  { rewrite Hskip. simpl Nat.add.
    destruct (wait_fuel - k) as [|f] eqn:Hf; [unfold wait_fuel in Hf; lia|].
    destruct f as [|f]; [unfold wait_fuel in Hf; lia|].
    cbn [wait_for_qr]. rewrite (closure_lookup _ _ _ Hc).
    unfold keep_waiting at 1. rewrite Hqr, He. cbn [truthy reason_truthy negb andb].
    replace (poll_interval * Z.of_nat k <? qrTimeout)%Z with true
      by (symmetry; apply Z.ltb_lt; unfold poll_interval, qrTimeout; lia).
    rewrite Hev. cbn [deliver foldl apply_event]. fold st3.
    rewrite (closure_lookup _ _ _ Hc3). unfold keep_waiting.
    subst c'. cbn [qrCode]. destruct qr; [congruence|]. reflexivity. }
  split; [eauto|].
  subst r. unfold start_session. rewrite Hg.
  replace (launch st1 session webhook) with (st2, i) by reflexivity.
  cbv iota beta. rewrite Hwait. cbv iota beta.
  rewrite (closure_lookup _ _ _ Hc3). subst c'. cbn [createError qrCode].
  rewrite He. destruct qr as [|a q]; [congruence|].
  cbn [reason_truthy truthy reply final]. split; [reflexivity | exact Hq3].
Qed.

Lemma prompt_engine_quiet j ev : j < 4 -> ev ∈ prompt_engine j -> quiet 0 ev.
Proof.
  intros Hj H. apply list_elem_of_In in H.
  do 4 (destruct j as [|j]; [contradiction|]). lia.
Qed.

Lemma qr_wait_returns_the_qr_witness :
  qrCodes (final (start_session empty_server "acct1" None true Never Never prompt_engine))
    !! "acct1" = Some "data:image/png;base64,iVBORw0KGgo".
Proof.
  destruct (qr_wait_returns_the_qr empty_server empty_server [] "acct1" None Never Never
              prompt_engine 4 "data:image/png;base64,iVBORw0KGgo") as (_ & _ & H).
  - reflexivity.
  - lia.
  - discriminate.
  - exact prompt_engine_quiet.
  - reflexivity.
  - exact H.
Defined.

(** X13: when the creation promise rejects during sleep number [k] of the
    QR wait, with a truthy reason and nothing shown before, the call
    answers 500 right after that sleep with the message taken from the
    reason, and neither map has an entry for the id any more. *)
Theorem qr_wait_reports_creation_failure st st1 cs session webhook conn closing sched k err :
  start_guard st session conn closing = (GuardFallsThrough st1, cs) ->
  k < 60 ->
  reason_truthy (Some err) = true ->
  (forall j ev, j < k -> ev ∈ sched j -> quiet (length (creations st1)) ev) ->
  (forall j, j < k -> CreateResolved (length (creations st1)) ∉ sched j) ->
  sched k = [CreateRejected (length (creations st1)) err] ->
  let st2 := (launch st1 session webhook).1 in
  let r := start_session st session webhook true conn closing sched in
  (exists st3, wait_for_qr wait_fuel sched (length (creations st1)) 0 st2
               = Some (st3, S k))
  /\ reply r = Some (start_error session (reason_message (Some err)))
  /\ clients (final r) !! session = None
  /\ qrCodes (final r) !! session = None.
Proof.
  intros Hg Hk Herr Hq Hnr Hev st2 r. set (i := length (creations st1)) in *.
  destruct (launch_waiting st1 session webhook) as [Hw2 Hf2]. fold i st2 in Hw2, Hf2.
  destruct (wait_skips_quiet_sleeps sched i session k 0 (wait_fuel - k) st2)
    as [Hskip Hwk]; [lia | intros j ev Hj; apply Hq; lia | exact Hw2 |].
  replace (k + (wait_fuel - k)) with wait_fuel in Hskip by (unfold wait_fuel; lia).
  assert (Hfk : in_flight i (after_sleeps sched 0 k st2)).
  { apply quiet_sleeps_in_flight; [intros j ev Hj; apply Hq; lia
                                  |intros j Hj; apply Hnr; lia | exact Hf2]. }
  set (stk := after_sleeps sched 0 k st2) in *.
  destruct Hwk as (c & Hc & Hs & Hqr & He).
  destruct Hfk as (c0 & Hc0 & Hp). rewrite Hc in Hc0. injection Hc0 as Heq. subst c0.
  pose proof (lookup_lt_Some _ _ _ Hc) as Hlt.
  set (c' := Creation (cr_session c) Failed (qrCode c) (sessionStatus c)
                      (clientCreated c) (Some err)).
  set (st3 := create_rejected i err stk).
  assert (Hc3 : creations st3 !! i = Some c').
  { subst st3. unfold create_rejected. rewrite Hc, Hp. cbn [creations].
    apply list_lookup_insert_eq. exact Hlt. }
  assert (Hwait : wait_for_qr wait_fuel sched i 0 st2 = Some (st3, S k)).
  { rewrite Hskip. simpl Nat.add.
    destruct (wait_fuel - k) as [|f] eqn:Hf; [unfold wait_fuel in Hf; lia|].
    destruct f as [|f]; [unfold wait_fuel in Hf; lia|].
    cbn [wait_for_qr]. rewrite (closure_lookup _ _ _ Hc).
    unfold keep_waiting at 1. rewrite Hqr, He. cbn [truthy reason_truthy negb andb].
    replace (poll_interval * Z.of_nat k <? qrTimeout)%Z with true
      by (symmetry; apply Z.ltb_lt; unfold poll_interval, qrTimeout; lia).
    rewrite Hev. cbn [deliver foldl apply_event]. fold st3.
    rewrite (closure_lookup _ _ _ Hc3). unfold keep_waiting.
    subst c'. cbn [qrCode createError]. rewrite Herr, Hqr. reflexivity. }
  split; [eauto|].
  subst r. unfold start_session. rewrite Hg.
  replace (launch st1 session webhook) with (st2, i) by reflexivity.
  cbv iota beta. rewrite Hwait. cbv iota beta.
  rewrite (closure_lookup _ _ _ Hc3). subst c'. cbn [createError].
  rewrite Herr. cbn [start_failed reply final].
  split; [reflexivity|]. split; [apply purge_clients | apply purge_qrCodes].
Qed.

Lemma crashing_engine_calm j : j < 2 -> crashing_engine j = [].
Proof. intros Hj. do 2 (destruct j as [|j]; [reflexivity|]). lia. Qed.

Lemma qr_wait_reports_creation_failure_witness :
  reply (start_session empty_server "acct1" None true Never Never crashing_engine)
  = Some (start_error "acct1" "Failed to launch the browser process").
Proof.
  destruct (qr_wait_reports_creation_failure empty_server empty_server [] "acct1" None
              Never Never crashing_engine 2
              (RError "Failed to launch the browser process")) as (_ & H & _).
  - reflexivity.
  - lia.
  - reflexivity.
  - intros j ev Hj. rewrite crashing_engine_calm by exact Hj. inversion 1.
  - intros j Hj. rewrite crashing_engine_calm by exact Hj. inversion 1.
  - reflexivity.
  - exact H.
Defined.

Lemma resolved_apply_event i ev st : resolved i st -> resolved i (apply_event ev st).
Proof.
  intros (c & Hc & Hp). unfold resolved.
  destruct ev as [j q|j status|j|j err]; simpl;
    [unfold catchQR | unfold statusFind | unfold create_resolved | unfold create_rejected];
    (destruct (creations st !! j) as [cj|] eqn:Hj; [|eauto]);
    pose proof (lookup_lt_Some _ _ _ Hj) as Hlt.
  - cbn [creations]. at_instance j i Hlt; [|eauto].
    rewrite Hj in Hc; injection Hc as ->; eexists; split; eauto.
  - destruct (reports_authenticated status); cbn [creations set_creation];
      (at_instance j i Hlt; [|eauto]);
      rewrite Hj in Hc; injection Hc as ->; eexists; split; eauto.
  - destruct (cr_promise cj) eqn:Hpj; [|eauto|eauto]. cbn [creations].
    at_instance j i Hlt; [|eauto].
    rewrite Hj in Hc; injection Hc as ->; congruence.
  - destruct (cr_promise cj) eqn:Hpj; [|eauto|eauto]. cbn [creations].
    at_instance j i Hlt; [|eauto].
    rewrite Hj in Hc; injection Hc as ->; congruence.
Qed.

Lemma resolved_deliver i evs st : resolved i st -> resolved i (deliver evs st).
Proof.
  revert st. induction evs as [|ev evs IH]; intros st H; [exact H|].
  simpl. apply IH, resolved_apply_event, H.
Qed.

Lemma resolved_after_sleeps sched i n :
  forall from st, resolved i st -> resolved i (after_sleeps sched from n st).
Proof.
  induction n as [|n IH]; intros from st H; [exact H|].
  simpl. apply IH, resolved_deliver, H.
Qed.

Lemma in_flight_resolves i st : in_flight i st -> resolved i (create_resolved i st).
Proof.
  intros (c & Hc & Hp). unfold resolved, create_resolved. rewrite Hc, Hp.
  cbn [creations]. rewrite list_lookup_insert_eq by (eapply lookup_lt_Some; eauto).
  eexists; split; reflexivity.
Qed.

Lemma quiet_event_alive i ev st :
  quiet i ev -> in_flight i st \/ resolved i st ->
  in_flight i (apply_event ev st) \/ resolved i (apply_event ev st).
Proof.
  intros Hq [Hf|Hr]; [|right; apply resolved_apply_event, Hr].
  destruct ev as [j q|j status|j|j err];
    try (left; apply calm_event_in_flight; [assumption | discriminate | assumption]).
  destruct (decide (j = i)) as [->|Hne].
  - right. apply in_flight_resolves, Hf.
  - left. apply calm_event_in_flight; [assumption | congruence | assumption].
Qed.

Lemma quiet_deliver_alive i evs st :
  (forall ev, ev ∈ evs -> quiet i ev) ->
  in_flight i st \/ resolved i st ->
  (in_flight i (deliver evs st) \/ resolved i (deliver evs st))
  /\ (CreateResolved i ∈ evs -> resolved i (deliver evs st)).
Proof.
  revert st. induction evs as [|ev evs IH]; intros st Hq Ha.
  - split; [exact Ha | inversion 1].
  - simpl.
    assert (Ha' : in_flight i (apply_event ev st) \/ resolved i (apply_event ev st)).
    { apply quiet_event_alive; [apply Hq; left | exact Ha]. }
    destruct (IH (apply_event ev st)) as [H1 H2];
      [intros e He; apply Hq; right; exact He | exact Ha' |].
    split; [exact H1|]. intros Hin. apply elem_of_cons in Hin as [<-|Hin].
    + apply resolved_deliver. destruct Ha as [Hf|Hr].
      * apply in_flight_resolves, Hf.
      * apply resolved_apply_event, Hr.
    + apply H2, Hin.
Qed.

Lemma quiet_sleeps_resolve sched i k n :
  (forall j ev, ev ∈ sched j -> quiet i ev) ->
  CreateResolved i ∈ sched k ->
  forall from st,
  from <= k < from + n ->
  in_flight i st \/ resolved i st ->
  resolved i (after_sleeps sched from n st).
Proof.
  intros Hq Hin. induction n as [|n IH]; intros from st Hk Ha; [lia|].
  simpl. destruct (quiet_deliver_alive i (sched from) st (Hq from) Ha) as [H1 H2].
  destruct (decide (k = from)) as [->|Hne].
  - apply resolved_after_sleeps, H2, Hin.
  - apply IH; [lia | exact H1].
Qed.

(** X14: when the creation resolves during the QR wait without ever
    showing a QR code (a stored login being resumed), the call still waits
    the full 30 s and answers 500 with the timeout error, and its catch
    block removes the freshly registered handle: the creation has
    fulfilled, yet the registry has no entry for the id. *)
Theorem qr_wait_drops_resumed_session st st1 cs session webhook conn closing sched k :
  start_guard st session conn closing = (GuardFallsThrough st1, cs) ->
  (forall j ev, ev ∈ sched j -> quiet (length (creations st1)) ev) ->
  k < 60 ->
  CreateResolved (length (creations st1)) ∈ sched k ->
  let r := start_session st session webhook true conn closing sched in
  reply r = Some (timed_out session)
  /\ resolved (length (creations st1)) (final r)
  /\ clients (final r) !! session = None.
Proof.
  intros Hg Hq Hk Hin r. set (i := length (creations st1)) in *.
  set (st2 := (launch st1 session webhook).1).
  destruct (launch_waiting st1 session webhook) as [Hw2 Hf2]. fold i st2 in Hw2, Hf2.
  set (st3 := after_sleeps sched 0 60 st2).
  assert (Hwait : wait_for_qr wait_fuel sched i 0 st2 = Some (st3, 60)).
  { apply (wait_runs_out sched i session Hq 60 0);
      [reflexivity | unfold wait_fuel; lia | exact Hw2]. }
  pose proof (after_sleeps_waiting sched i session Hq 60 0 st2 Hw2) as Hw3.
  fold st3 in Hw3. destruct Hw3 as (c3 & Hc3 & Hs3 & Hqr3 & He3).
  assert (Hr : r = start_failed session timeout_message st3 (cs ++ [ECreate session])%list).
  { subst r. unfold start_session. rewrite Hg.
    replace (launch st1 session webhook) with (st2, i) by reflexivity.
    cbv iota beta. rewrite Hwait. cbv iota beta.
    rewrite (closure_lookup _ _ _ Hc3), Hqr3, He3. reflexivity. }
  rewrite Hr. split; [reflexivity|]. split; [|apply purge_clients].
  assert (H3 : resolved i st3).
  { apply (quiet_sleeps_resolve sched i k 60 Hq Hin 0 st2); [lia | left; exact Hf2]. }
  exact H3.
Qed.

Lemma resuming_engine_quiet j ev : ev ∈ resuming_engine j -> quiet 0 ev.
Proof.
  intros H. apply list_elem_of_In in H.
  do 3 (destruct j as [|j]; [simpl in H; intuition (subst; exact I)|]).
  contradiction.
Qed.

Lemma qr_wait_drops_resumed_session_witness :
  reply (start_session empty_server "acct1" None true Never Never resuming_engine)
  = Some (timed_out "acct1")
  /\ clients (final (start_session empty_server "acct1" None true Never Never
                                   resuming_engine)) !! "acct1" = None.
Proof.
  destruct (qr_wait_drops_resumed_session empty_server empty_server [] "acct1" None
              Never Never resuming_engine 2) as (Hr & _ & Hc).
  - reflexivity.
  - exact resuming_engine_quiet.
  - lia.
  - left.
  - split; [exact Hr | exact Hc].
Defined.

(** ** Invariants of the reachable states *)

Lemma wait_preserves (P : server -> Prop) fuel sched i :
  (forall ev st, P st -> P (apply_event ev st)) ->
  forall polls st st' n,
  wait_for_qr fuel sched i polls st = Some (st', n) -> P st -> P st'.
Proof.
  intros Hev. induction fuel as [|fuel IH]; intros polls st st' n; simpl;
    destruct (keep_waiting (closure i st) polls); try discriminate.
  - intros [= <- _]. auto.
  - intros Hw Hp. apply (IH _ _ _ _ Hw).
    clear Hw. generalize (sched polls). intros evs. revert st Hp.
    induction evs as [|ev evs IHe]; intros st Hp; [exact Hp|].
    simpl. apply IHe, Hev, Hp.
  - intros [= <- _]. auto.
Qed.

(** A property of the state that the engine events, the two deletions of
    [purge], a launch, a change of the webhook map and the clearing of
    both session maps all preserve holds in every reachable state. *)
Lemma reachable_invariant (P : server -> Prop) :
  P empty_server ->
  (forall ev st, P st -> P (apply_event ev st)) ->
  (forall session st, P st -> P (purge session st)) ->
  (forall st session webhook, P st -> P (launch st session webhook).1) ->
  (forall w st, P st -> P (with_webhooks w st)) ->
  (forall st, P st -> P (Server ∅ ∅ (webhooks st) (creations st))) ->
  forall st, reachable st -> P st.
Proof.
  intros H0 Hev Hpurge Hlaunch Hweb Hclear st Hreach.
  induction Hreach as [|ev st _ IH|st session webhook w conn closing sched _ IH
                       |st session lo cl _ IH|st session url _ IH|st session _ IH
                       |st entries closing _ IH].
  - exact H0.
  - apply Hev, IH.
  - unfold start_session.
    destruct (start_guard st session conn closing) as [[resp|st1|] cs] eqn:Hg;
      [exact IH| |exact IH].
    assert (H1 : P st1).
    { unfold start_guard in Hg. destruct (clients st !! session); [|congruence].
      destruct (await conn) as [[|]| |];
        [|destruct (qrCodes st !! session)|destruct (await closing)|];
        inversion Hg; subst; auto. }
    pose proof (Hlaunch st1 session webhook H1) as H2.
    destruct (launch st1 session webhook) as [st2 i]. cbn [fst] in H2.
    destruct w; [|exact H2].
    destruct (wait_for_qr wait_fuel sched i 0 st2) as [[st3 n]|] eqn:Hw; [|exact H2].
    pose proof (wait_preserves P _ _ _ Hev _ _ _ _ Hw H2) as H3.
    destruct (reason_truthy _); [|destruct (truthy _)];
      cbn [final start_failed]; auto.
  - unfold logout_route. destruct (clients st !! session); [|exact IH].
    destruct (race_timeout lo logout_limit "Logout timeout");
      [destruct (await cl)| |]; cbn [final]; auto.
  - unfold set_webhook_route. destruct url as [[|a u]|]; cbn [final]; auto.
  - cbn [final remove_webhook_route]. auto.
  - unfold shutdown. cbn. destruct (forallb _ entries); cbn [after]; auto.
Qed.

Lemma insert_keeps (P : creation -> Prop) (l : list creation) j cj c' i c :
  l !! j = Some cj -> (P cj -> P c') ->
  l !! i = Some c -> P c ->
  exists c1, <[j:=c']> l !! i = Some c1 /\ P c1.
Proof.
  intros Hj Himp Hi Hp. destruct (decide (j = i)) as [->|Hne].
  - rewrite list_lookup_insert_eq by (eapply lookup_lt_Some; eauto).
    rewrite Hj in Hi. injection Hi as ->. eauto.
  - rewrite list_lookup_insert_ne by exact Hne. eauto.
Qed.

Lemma registry_sound_event ev st : registry_sound st -> registry_sound (apply_event ev st).
Proof.
  intros Hs session h. specialize (Hs session).
  destruct ev as [j q|j status|j|j err]; simpl;
    [unfold catchQR | unfold statusFind | unfold create_resolved | unfold create_rejected];
    (destruct (creations st !! j) as [cj|] eqn:Hj; [|apply Hs]).
  - cbn [clients creations]. intros Hh. destruct (Hs h Hh) as (c & Hc & Hp).
    apply (insert_keeps (registered_for session) _ _ cj _ _ c Hj); auto;
      unfold registered_for; simpl; auto.
  - destruct (reports_authenticated status); cbn [clients creations set_creation];
      intros Hh; destruct (Hs h Hh) as (c & Hc & Hp);
      apply (insert_keeps (registered_for session) _ _ cj _ _ c Hj); auto;
      unfold registered_for; simpl; auto.
  - destruct (cr_promise cj) eqn:Hpj; [|apply Hs|apply Hs]. cbn [clients creations].
    destruct (decide (cr_session cj = session)) as [<-|Hne].
    + rewrite lookup_insert_eq. intros [= <-].
      rewrite list_lookup_insert_eq by (eapply lookup_lt_Some; eauto).
      eexists; repeat split.
    + rewrite lookup_insert_ne by exact Hne. intros Hh.
      destruct (Hs h Hh) as (c & Hc & Hp).
      apply (insert_keeps (registered_for session) _ _ cj _ _ c Hj); auto;
        unfold registered_for; intros (? & ? & ?); congruence.
  - destruct (cr_promise cj) eqn:Hpj; [|apply Hs|apply Hs]. cbn [clients creations].
    intros Hh. apply lookup_delete_Some in Hh as [Hne Hh].
    destruct (Hs h Hh) as (c & Hc & Hp).
    apply (insert_keeps (registered_for session) _ _ cj _ _ c Hj); auto;
      unfold registered_for; intros (? & ? & ?); congruence.
Qed.

(** X15: in every reachable state, a handle found in the registry under
    an id is the engine instance of a creation that was started for that
    very id and has fulfilled; the registry never holds a handle under
    another session's key, nor one of a pending or failed creation. *)
Theorem reachable_registry_sound st : reachable st -> registry_sound st.
Proof.
  apply (reachable_invariant registry_sound).
  - intros session h H. unfold empty_server in H. cbn [clients] in H.
    rewrite lookup_empty in H. discriminate.
  - apply registry_sound_event.
  - intros session st0 Hs s h Hh. cbn [purge clients creations] in *.
    apply lookup_delete_Some in Hh as [_ Hh]. apply Hs, Hh.
  - intros st0 session webhook Hs s h Hh. cbn [launch fst clients creations] in *.
    destruct (Hs s h Hh) as (c & Hc & Hp). exists c. split; [|exact Hp].
    apply lookup_app_l_Some, Hc.
  - intros w st0 Hs. exact Hs.
  - intros st0 _ s h Hh. cbn [clients] in Hh. rewrite lookup_empty in Hh. discriminate.
Qed.

Lemma acct1_qr_shown_reachable : reachable acct1_qr_shown.
Proof.
  apply (reach_event (CatchQR 0 "data:image/png;base64,iVBORw0KGgo")).
  apply (reach_start_session empty_server "acct1" None false Never Never (fun _ => [])).
  apply reach_start.
Qed.

Lemma reachable_registry_sound_witness :
  registry_sound (create_resolved 0 acct1_qr_shown).
Proof.
  apply reachable_registry_sound.
  apply (reach_event (CreateResolved 0)). exact acct1_qr_shown_reachable.
Defined.

Lemma qr_cache_sound_event ev st : qr_cache_sound st -> qr_cache_sound (apply_event ev st).
Proof.
  intros Hs session qr. specialize (Hs session).
  assert (Hkeep : forall j cj c',
            creations st !! j = Some cj ->
            (showed session qr cj -> showed session qr c') ->
            qrCodes st !! session = Some qr ->
            exists i c, <[j:=c']> (creations st) !! i = Some c
                        /\ cr_session c = session /\ qrCode c = Some qr).
  { intros j cj c' Hj Himp Hq. destruct (Hs qr Hq) as (i & c & Hc & Hp1 & Hp2).
    destruct (insert_keeps (showed session qr) _ _ cj c' i c Hj Himp Hc)
      as (c1 & Hc1 & Hp); [split; assumption|].
    exists i, c1. destruct Hp. auto. }
  destruct ev as [j q|j status|j|j err]; simpl;
    [unfold catchQR | unfold statusFind | unfold create_resolved | unfold create_rejected];
    (destruct (creations st !! j) as [cj|] eqn:Hj; [|apply Hs]).
  - cbn [qrCodes creations].
    destruct (decide (cr_session cj = session)) as [<-|Hne].
    + rewrite lookup_insert_eq. intros [= <-]. exists j. eexists.
      rewrite list_lookup_insert_eq by (eapply lookup_lt_Some; eauto).
      repeat split.
    + rewrite lookup_insert_ne by exact Hne.
      apply (Hkeep j cj); [exact Hj|]. unfold showed. intros [? _]. congruence.
  - destruct (reports_authenticated status); cbn [qrCodes creations set_creation].
    + intros Hq. apply lookup_delete_Some in Hq as [_ Hq].
      apply (Hkeep j cj); auto.
    + apply (Hkeep j cj); auto.
  - destruct (cr_promise cj); [|apply Hs|apply Hs]. cbn [qrCodes creations].
    apply (Hkeep j cj); auto.
  - destruct (cr_promise cj); [|apply Hs|apply Hs]. cbn [qrCodes creations].
    intros Hq. apply lookup_delete_Some in Hq as [_ Hq].
    apply (Hkeep j cj); auto.
Qed.

(** X16: in every reachable state, a QR payload cached for an id is the
    payload most recently received by some creation started for that id:
    the QR cache never holds a payload that no engine of that session
    produced. *)
Theorem reachable_qr_cache_sound st : reachable st -> qr_cache_sound st.
Proof.
  apply (reachable_invariant qr_cache_sound).
  - intros session qr H. unfold empty_server in H. cbn [qrCodes] in H.
    rewrite lookup_empty in H. discriminate.
  - apply qr_cache_sound_event.
  - intros session st0 Hs s qr Hq. cbn [purge qrCodes creations] in *.
    apply lookup_delete_Some in Hq as [_ Hq]. apply Hs, Hq.
  - intros st0 session webhook Hs s qr Hq. cbn [launch fst qrCodes creations] in *.
    destruct (Hs s qr Hq) as (i & c & Hc & Hp). exists i, c. split; [|exact Hp].
    apply lookup_app_l_Some, Hc.
  - intros w st0 Hs. exact Hs.
  - intros st0 _ s qr Hq. cbn [qrCodes] in Hq. rewrite lookup_empty in Hq. discriminate.
Qed.

Lemma reachable_qr_cache_sound_witness : qr_cache_sound acct1_qr_shown.
Proof. apply reachable_qr_cache_sound. exact acct1_qr_shown_reachable. Defined.

(** ** Independence of sessions *)

(** X17: an engine callback or continuation touches the registry and the
    QR cache only under the session id of its own creation: the entries
    of every other id are exactly as before. *)
Theorem events_touch_only_their_session ev st other :
  (forall c, creations st !! event_instance ev = Some c -> cr_session c <> other) ->
  clients (apply_event ev st) !! other = clients st !! other
  /\ qrCodes (apply_event ev st) !! other = qrCodes st !! other.
Proof.
  intros Hown.
  destruct ev as [i q|i status|i|i err]; simpl in *;
    [unfold catchQR | unfold statusFind | unfold create_resolved | unfold create_rejected];
    (destruct (creations st !! i) as [c|] eqn:Hc; [|split; reflexivity]);
    specialize (Hown c eq_refl).
  - cbn [clients qrCodes]. rewrite lookup_insert_ne by exact Hown. split; reflexivity.
  - destruct (reports_authenticated status); cbn [clients qrCodes set_creation];
      [rewrite lookup_delete_ne by exact Hown|]; split; reflexivity.
  - destruct (cr_promise c); cbn [clients qrCodes];
      [rewrite lookup_insert_ne by exact Hown| |]; split; reflexivity.
  - destruct (cr_promise c); cbn [clients qrCodes];
      [rewrite !lookup_delete_ne by exact Hown| |]; split; reflexivity.
Qed.

Lemma events_touch_only_their_session_witness :
  clients (apply_event (CreateRejected 0 RUndefined) acct1_qr_shown) !! "acct2"
  = clients acct1_qr_shown !! "acct2".
Proof.
  apply (events_touch_only_their_session (CreateRejected 0 RUndefined)
           acct1_qr_shown "acct2").
  intros c [= <-]. discriminate.
Defined.

(** X18: logout and a start-session call that does not wait for the QR
    code change the registry and the QR cache only under their own
    session id. *)
Theorem handlers_touch_only_their_session st session other
    logging_out closing webhook conn sched :
  other <> session ->
  (clients (final (logout_route st session logging_out closing)) !! other
   = clients st !! other
   /\ qrCodes (final (logout_route st session logging_out closing)) !! other
      = qrCodes st !! other)
  /\ (clients (final (start_session st session webhook false conn closing sched)) !! other
      = clients st !! other
      /\ qrCodes (final (start_session st session webhook false conn closing sched)) !! other
         = qrCodes st !! other).
Proof.
  intros Hne.
  assert (Hp : forall st0, clients (purge session st0) !! other = clients st0 !! other
                           /\ qrCodes (purge session st0) !! other = qrCodes st0 !! other).
  { intros st0. cbn [purge clients qrCodes].
    rewrite !lookup_delete_ne by congruence. split; reflexivity. }
  split.
  - unfold logout_route. destruct (clients st !! session); [|split; reflexivity].
    destruct (race_timeout logging_out logout_limit "Logout timeout");
      [destruct (await closing)| |]; cbn [final]; auto.
  - unfold start_session, start_guard. destruct (clients st !! session).
    + destruct (await conn) as [[|]| |];
        [|destruct (qrCodes st !! session)|destruct (await closing)|];
        cbn [final launch clients qrCodes]; auto; apply Hp.
    + cbn [final launch clients qrCodes]. auto.
Qed.

Lemma handlers_touch_only_their_session_witness :
  clients (final (logout_route two_sessions "acct1" Never Never)) !! "acct2" = Some 1.
Proof.
  destruct (handlers_touch_only_their_session two_sessions "acct1" "acct2"
              Never Never None Never (fun _ => [])) as [[H _] _]; [discriminate|].
  rewrite H. reflexivity.
Defined.

(** ** After logout, and the read-only routes *)

(** X19: once a registered id has been logged out, whatever the engine did
    during the logout, a qrcode fetch for it answers 404 not-available, a
    sendText answers 404, and a second logout answers 404 "Session not
    found" without calling the engine: logout succeeds at most once. *)
Theorem after_logout_session_is_gone st session h logging_out closing
    conn lo2 cl2 phone message sending :
  clients st !! session = Some h ->
  settles closing ->
  truthy phone = true ->
  truthy message = true ->
  let st' := final (logout_route st session logging_out closing) in
  qrcode_route st' session conn = Result (Some qr_not_available) st' []
  /\ logout_route st' session lo2 cl2 = Result (Some session_not_found) st' []
  /\ sendText_route st' session phone message conn sending
     = Result (Some session_not_found) st' [].
Proof.
  intros Hhit Hclose Hp Hm st'.
  assert (Hst : st' = purge session st).
  { subst st'. unfold logout_route. rewrite Hhit.
    destruct (race_timeout logging_out logout_limit "Logout timeout") eqn:Hrace.
    - destruct closing; simpl in *; [reflexivity | reflexivity | contradiction].
    - reflexivity.
    - destruct logging_out as [ms a|ms m|]; simpl in Hrace;
        try destruct (ms <? logout_limit)%Z; discriminate. }
  clearbody st'. subst st'.
  destruct phone as [[|a p]|]; try discriminate.
  destruct message as [[|b m]|]; try discriminate.
  unfold qrcode_route, logout_route, sendText_route, from_cache.
  rewrite purge_clients, purge_qrCodes. repeat split.
Qed.

Lemma after_logout_session_is_gone_witness :
  reply (qrcode_route (final (logout_route acct1_pairing "acct1" (Resolves 20 tt)
                                           (Resolves 30 tt)))
                      "acct1" Never)
  = Some qr_not_available.
Proof.
  destruct (after_logout_session_is_gone acct1_pairing "acct1" 0 (Resolves 20 tt)
              (Resolves 30 tt) Never Never Never (Some "5511999990000") (Some "hi") Never)
    as [H _]; [reflexivity | exact I | reflexivity | reflexivity |].
  rewrite H. reflexivity.
Defined.

(** X20: the status, qrcode and sendText handlers only read the maps:
    whatever the request and whatever the engine answers, the state after
    the handler is the state before, and a start-session call that the
    guard answers changes nothing either. *)
Theorem query_routes_are_read_only st session conn phone message sending
    webhook waitQrCode closing sched :
  final (status_route st session conn) = st
  /\ final (qrcode_route st session conn) = st
  /\ final (sendText_route st session phone message conn sending) = st
  /\ (forall resp cs, start_guard st session conn closing = (GuardAnswers resp, cs) ->
      final (start_session st session webhook waitQrCode conn closing sched) = st).
Proof.
  split; [|split; [|split]].
  - unfold status_route. destruct (clients st !! session); [|reflexivity].
    destruct (race_timeout conn check_limit "Timeout"); reflexivity.
  - unfold qrcode_route. destruct (clients st !! session); [|reflexivity].
    destruct (await conn) as [[|]| |]; reflexivity.
  - unfold sendText_route.
    destruct phone as [[|a p]|]; try reflexivity.
    destruct message as [[|b m]|]; try reflexivity.
    destruct (clients st !! session); [|reflexivity].
    destruct (await conn) as [[|]| |]; try reflexivity.
    destruct (await sending); reflexivity.
  - intros resp cs Hg. unfold start_session. rewrite Hg. reflexivity.
Qed.

(** ** Media routes *)

Lemma send_when_connected_invokes st session conn sending m args to ok :
  let '(_, cs) := send_when_connected st session conn sending m args to ok in
  length (List.filter is_invoke cs) <= 1
  /\ (List.filter is_invoke cs <> [] ->
      exists h ms, clients st !! session = Some h /\ conn = Resolves ms true
                   /\ cs = [McIsConnected h; McInvoke m h args]).
Proof.
  unfold send_when_connected.
  destruct (clients st !! session) as [h|]; [|simpl; split; [lia | congruence]].
  destruct conn as [ms [|]|ms msg|]; simpl; try (split; [lia | congruence]).
  destruct (await sending); simpl; (split; [lia|]); intros _; eauto.
Qed.

(** X21: each of the four media handlers (send-image, send-file,
    send-voice, send-video) calls its engine method at most once, and only
    when the id is registered and the connectivity predicate has answered
    true; the method called is the one of the route. *)
Theorem media_routes_call_engine_only_when_connected m st session
    phone base64 filename caption conn sending :
  let cs := (media_route m st session phone base64 filename caption conn sending).2 in
  length (List.filter is_invoke cs) <= 1
  /\ (List.filter is_invoke cs <> [] ->
      exists h ms args, clients st !! session = Some h
                        /\ conn = Resolves ms true
                        /\ cs = [McIsConnected h; McInvoke m h args]).
Proof.
  intros cs. subst cs.
  assert (Hmiss : forall msg,
            length (List.filter is_invoke (missing_fields msg).2) <= 1
            /\ (List.filter is_invoke (missing_fields msg).2 <> [] ->
                exists h ms args, clients st !! session = Some h
                                  /\ conn = Resolves ms true
                                  /\ (missing_fields msg).2
                                     = [McIsConnected h; McInvoke m h args])).
  { intros msg. simpl. split; [lia | congruence]. }
  destruct m; unfold media_route, send_image_route, send_file_route,
                send_voice_route, send_video_route;
    destruct phone as [[|a p]|]; try apply Hmiss;
    destruct base64 as [[|b d]|]; try apply Hmiss;
    try (destruct filename as [[|c f]|]; try apply Hmiss);
    match goal with
    | |- context [send_when_connected ?s ?x ?c ?sd ?mm ?args ?to ?ok] =>
        pose proof (send_when_connected_invokes s x c sd mm args to ok) as H;
        destruct (send_when_connected s x c sd mm args to ok) as [resp cs];
        destruct H as [H1 H2]; cbn [snd]; split; [exact H1|];
        intros Hne; destruct (H2 Hne) as (h & ms & ? & ? & ?); eauto 6
    end.
Qed.

(** X22: the media handlers validate before they look at the registry:
    with the phone or the base64 payload missing or empty each answers 400
    without any engine call, for registered and unknown ids alike;
    send-file also insists on a file name, which send-image and send-video
    replace by a default. *)
Theorem media_routes_validate_first st session phone base64 filename caption conn sending :
  (truthy phone = false \/ truthy base64 = false ->
   send_image_route st session phone base64 filename caption conn sending
   = missing_fields "Missing phone or base64 image"
   /\ send_file_route st session phone base64 filename caption conn sending
      = missing_fields "Missing phone, base64 or filename"
   /\ send_voice_route st session phone base64 conn sending
      = missing_fields "Missing phone or base64 audio"
   /\ send_video_route st session phone base64 filename caption conn sending
      = missing_fields "Missing phone or base64 video")
  /\ (truthy filename = false ->
      send_file_route st session phone base64 filename caption conn sending
      = missing_fields "Missing phone, base64 or filename")
  /\ (truthy phone = true -> truthy base64 = true -> truthy filename = false ->
      forall h ms, clients st !! session = Some h -> conn = Resolves ms true ->
      exists to,
        (send_image_route st session phone base64 filename caption conn sending).2
        = [McIsConnected h; McInvoke MSendImage h
                                     [to; default "" base64; "image"; or_default caption ""]]
        /\ (send_video_route st session phone base64 filename caption conn sending).2
           = [McIsConnected h; McInvoke MSendVideoAsGif h
                                        [to; default "" base64; "video"; or_default caption ""]]).
Proof.
  split; [|split].
  - unfold send_image_route, send_file_route, send_voice_route, send_video_route.
    intros [Hp|Hb].
    + destruct phone as [[|a p]|]; try discriminate; repeat split.
    + destruct base64 as [[|b d]|]; try discriminate;
        destruct phone as [[|a p]|]; repeat split.
  - unfold send_file_route. intros Hf.
    destruct filename as [[|c f]|]; try discriminate;
      destruct phone as [[|a p]|]; try reflexivity;
      destruct base64 as [[|b d]|]; reflexivity.
  - intros Hp Hb Hf h ms Hhit ->.
    destruct phone as [[|a p]|]; try discriminate.
    destruct base64 as [[|b d]|]; try discriminate.
    exists (media_address (String a p)).
    unfold send_image_route, send_video_route, send_when_connected. rewrite Hhit.
    destruct filename as [[|c f]|]; try discriminate;
      simpl; destruct (await sending); split; reflexivity.
Qed.

Lemma media_routes_validate_first_witness :
  send_voice_route two_sessions "acct1" (Some "5511999990000") None
                   (Resolves 1 true) (Resolves 1 (VOpaque "sent"))
  = missing_fields "Missing phone or base64 audio".
Proof.
  destruct (media_routes_validate_first two_sessions "acct1" (Some "5511999990000")
              None None None (Resolves 1 true) (Resolves 1 (VOpaque "sent")))
    as [H _].
  destruct H as (_ & _ & Hv & _); [right; reflexivity | exact Hv].
Defined.

(** ** Addresses *)

Lemma prefix_nil s : String.prefix "" s = true.
Proof. destruct s; reflexivity. Qed.

Lemma includes_append needle p s :
  includes needle s = true -> includes needle (p +:+ s) = true.
Proof.
  intros Hs. induction p as [|c p IH]; [exact Hs|].
  change (String c p +:+ s) with (String c (p +:+ s)).
  cbn [includes]. destruct (String.prefix needle (String c (p +:+ s))); auto.
Qed.

(** X23: the address handed to the engine always carries a domain:
    sendText yields an address containing "@c.us", the media routes one
    containing "@", and both leave an address they produced unchanged.
    They differ on an address with another domain: the media routes pass
    it through while sendText appends "@c.us" to it. *)
Theorem addresses_are_normalised phone :
  includes "@c.us" (text_address phone) = true
  /\ includes "@" (media_address phone) = true
  /\ text_address (text_address phone) = text_address phone
  /\ media_address (media_address phone) = media_address phone
  /\ (includes "@" phone = true -> includes "@c.us" phone = false ->
      media_address phone = phone /\ text_address phone = phone +:+ "@c.us").
Proof.
  assert (Ht : includes "@c.us" (text_address phone) = true).
  { unfold text_address. destruct (includes "@c.us" phone) eqn:H; [exact H|].
    apply includes_append. reflexivity. }
  assert (Hm : includes "@" (media_address phone) = true).
  { unfold media_address. destruct (includes "@" phone) eqn:H; [exact H|].
    apply includes_append. reflexivity. }
  split; [exact Ht|]. split; [exact Hm|]. split; [|split].
  - unfold text_address at 1. rewrite Ht. reflexivity.
  - unfold media_address at 1. rewrite Hm. reflexivity.
  - intros H1 H2. unfold media_address, text_address. rewrite H1, H2. split; reflexivity.
Qed.

(** A group address goes through the media routes untouched and is
    mangled by sendText. *)
Example group_address :
  media_address "120363041234567890@g.us" = "120363041234567890@g.us"
  /\ text_address "120363041234567890@g.us" = "120363041234567890@g.us@c.us"
  /\ chat_id "120363041234567890" (Some "true") = "120363041234567890@g.us".
Proof. repeat split. Qed.

(** ** Session listing *)

Lemma list_sessions_settled conn entries :
  Forall (fun e : string * handle => settles (conn e.2)) entries ->
  list_sessions conn entries = Some (entry_for conn <$> entries).
Proof.
  induction 1 as [|[name h] rest Hs _ IH]; [reflexivity|].
  cbn [list_sessions]. rewrite IH, fmap_cons. cbn [snd] in Hs.
  unfold entry_for. cbn [fst snd].
  destruct (conn h); simpl in *; [reflexivity | reflexivity | contradiction].
Qed.

Lemma list_sessions_hangs conn entries :
  Exists (fun e : string * handle => conn e.2 = Never) entries ->
  list_sessions conn entries = None.
Proof.
  induction 1 as [[name h] rest Hn|[name h] rest _ IH]; cbn [list_sessions].
  - cbn [snd] in Hn. rewrite Hn. reflexivity.
  - rewrite IH. destruct (await (conn h)); reflexivity.
Qed.

Lemma entries_of_registry st entries :
  entries_of st entries ->
  length entries = size (clients st)
  /\ (forall name h, (name, h) ∈ entries <-> clients st !! name = Some h).
Proof.
  unfold entries_of. intros Hent. split.
  - rewrite (Permutation_length Hent). apply length_map_to_list.
  - intros name h. rewrite <- elem_of_map_to_list.
    split; intros H; [rewrite <- Hent | rewrite Hent]; exact H.
Qed.

(** X24: when every connectivity check settles, the session listing
    answers with one entry per registered id, in the order of the
    registry, and [count] is the size of the registry; the entry of an id
    depends on the check of that id alone, so a check that rejects turns
    its own entry into status error and leaves the others as they are.  A
    check that never settles keeps the whole listing from answering. *)
Theorem sessions_route_lists_the_registry st conn entries :
  entries_of st entries ->
  (Forall (fun e : string * handle => settles (conn e.2)) entries ->
   sessions_route conn entries
   = Some (size (clients st), entry_for conn <$> entries)
   /\ (forall name, name ∈ se_name <$> (entry_for conn <$> entries)
                    <-> is_Some (clients st !! name)))
  /\ (Exists (fun e : string * handle => conn e.2 = Never) entries ->
      sessions_route conn entries = None).
Proof.
  intros Hent.
  destruct (entries_of_registry st entries Hent) as [Hlen Hmem]. split.
  - intros Hs. unfold sessions_route. rewrite (list_sessions_settled _ _ Hs).
    cbn [fmap option_fmap option_map]. rewrite length_fmap, Hlen.
    split; [reflexivity|].
    intros name. rewrite <- list_fmap_compose.
    rewrite list_elem_of_fmap. split.
    + intros ([n h] & -> & Hin). apply Hmem in Hin.
      unfold compose, entry_for. cbn [fst snd].
      destruct (await (conn h)); cbn [se_name]; eauto.
    + intros [h Hh]. exists (name, h). split.
      * unfold compose, entry_for. cbn [fst snd].
        destruct (await (conn h)); reflexivity.
      * apply Hmem. exact Hh.
  - intros Hn. unfold sessions_route. rewrite (list_sessions_hangs _ _ Hn). reflexivity.
Qed.

Lemma sessions_route_lists_the_registry_witness :
  sessions_route (fun h => if Nat.eqb h 0 then Rejects 5 "Target closed"
                           else Resolves 5 true)
                 [("acct1", 0); ("acct2", 1)]
  = Some (2, [SessionEntry "acct1" "error" false;
              SessionEntry "acct2" "connected" true]).
Proof.
  destruct (sessions_route_lists_the_registry two_sessions
              (fun h => if Nat.eqb h 0 then Rejects 5 "Target closed"
                        else Resolves 5 true)
              [("acct1", 0); ("acct2", 1)]) as [H _].
  - unfold entries_of. vm_compute. reflexivity.
  - destruct H as [H _]; [repeat constructor|]. rewrite H. reflexivity.
Defined.

(** ** Shutdown *)

(** X25: on the first signal shutdown calls close() once for every entry
    of the registry, in order; when every close settles, fulfilled or
    rejected, both session maps end up empty and the process exits, while
    a close that never settles keeps the process from exiting and the maps
    from being cleared.  A further signal while shutting down does
    nothing. *)
Theorem shutdown_closes_every_session st entries closing :
  entries_of st entries ->
  let r := shutdown false entries closing st in
  closed r = (fun e : string * handle => EClose e.2) <$> entries
  /\ (forall session h, clients st !! session = Some h -> EClose h ∈ closed r)
  /\ (Forall (fun e : string * handle => settles (closing e.2)) entries ->
      exited r = true /\ clients (after r) = ∅ /\ qrCodes (after r) = ∅)
  /\ (Exists (fun e : string * handle => closing e.2 = Never) entries ->
      exited r = false /\ after r = st)
  /\ shutdown (shutting_down r) entries closing (after r)
     = ShutdownResult true [] (after r) false.
Proof.
  intros Hent r.
  assert (Hc : closed r = (fun e : string * handle => EClose e.2) <$> entries).
  { subst r. unfold shutdown. destruct (forallb _ entries); reflexivity. }
  split; [exact Hc|]. split; [|split; [|split]].
  - intros session h Hh. rewrite Hc.
    apply (list_elem_of_fmap_2' _ _ (session, h)); [|reflexivity].
    apply (entries_of_registry st entries Hent). exact Hh.
  - intros Hs. subst r. unfold shutdown.
    replace (forallb _ entries) with true; [repeat split|].
    symmetry. apply forallb_forall. intros e He.
    apply list_elem_of_In in He.
    pose proof (proj1 (Forall_forall _ _) Hs e He) as Hse.
    cbv beta in *. destruct (closing e.2) eqn:Hce; [reflexivity | reflexivity |].
    contradiction.
  - intros Hn. subst r. unfold shutdown.
    replace (forallb _ entries) with false; [repeat split|].
    symmetry. apply not_true_is_false. intros Hall.
    apply Exists_exists in Hn as (e & He & Hne).
    apply list_elem_of_In in He.
    pose proof (proj1 (forallb_forall _ _) Hall e He) as Hb.
    cbv beta in *. rewrite Hne in Hb. discriminate.
  - subst r. unfold shutdown. destruct (forallb _ entries); reflexivity.
Qed.

Lemma shutdown_closes_every_session_witness :
  closed (shutdown false [("acct1", 0); ("acct2", 1)]
                   (fun _ => Rejects 9 "Target closed") two_sessions)
  = [EClose 0; EClose 1]
  /\ clients (after (shutdown false [("acct1", 0); ("acct2", 1)]
                              (fun _ => Rejects 9 "Target closed") two_sessions)) = ∅.
Proof.
  destruct (shutdown_closes_every_session two_sessions [("acct1", 0); ("acct2", 1)]
              (fun _ => Rejects 9 "Target closed")) as (Hc & _ & Hs & _).
  - unfold entries_of. vm_compute. reflexivity.
  - split; [rewrite Hc; reflexivity|].
    destruct Hs as (_ & He & _); [repeat constructor | exact He].
Defined.
